(** * TuringRetro: the DQN agent ([agents/dqn/agent.py])

    A shallow embedding of [DQNAgent] and of the collaborators it drives.
    Floating-point tensors are idealised as lists of real numbers, a
    tensor's shape as its number of elements.  The methods of the agent
    become functions in a state-and-exception monad over the agent record.
    The numpy random generator is made explicit: every call receives the
    values it would draw as arguments. *)

From Stdlib Require Import String.
From Stdlib Require Import Reals Lra Lia List Bool Arith PeanoNat.
Import ListNotations.

Local Open Scope R_scope.

(** ** Python values and exceptions *)

Inductive exn : Type :=
| ValueError     (* reduction over an empty array *)
| IndexError     (* gather index out of range *)
| RuntimeError   (* shapes that cannot be combined, bad state dict *)
| FileNotFound.  (* torch.load on a missing path *)

Inductive result (A : Type) : Type :=
| Ok (a : A)
| Raise (e : exn).

Arguments Ok {A} a.
Arguments Raise {A} e.

Definition rbind {A B} (r : result A) (f : A -> result B) : result B :=
  match r with
  | Ok a => f a
  | Raise e => Raise e
  end.

(** The value a call of [train] hands back: [-float("inf")], a loss, or
    [None] when the function body falls off its end. *)
Inductive pyval : Type :=
| NegInf
| Float (r : R)
| PyNone.

(** ** Tensors *)

Definition Tensor := list R.
Definition Params := list Tensor.

Definition b2r (b : bool) : R := if b then 1 else 0.

Fixpoint map2 {A B C} (f : A -> B -> C) (xs : list A) (ys : list B) : list C :=
  match xs, ys with
  | x :: xs', y :: ys' => f x y :: map2 f xs' ys'
  | _, _ => []
  end.

Fixpoint mapM {A B} (f : A -> result B) (l : list A) : result (list B) :=
  match l with
  | [] => Ok []
  | x :: rest =>
      match f x with
      | Ok y =>
          match mapM f rest with
          | Ok ys => Ok (y :: ys)
          | Raise e => Raise e
          end
      | Raise e => Raise e
      end
  end.

(** [x.max()] of a one-dimensional array; numpy and torch both refuse an
    empty one. *)
Fixpoint list_max (xs : list R) : option R :=
  match xs with
  | [] => None
  | x :: rest =>
      match list_max rest with
      | None => Some x
      | Some m => Some (Rmax x m)
      end
  end.

Definition tensor_max (xs : list R) : result R :=
  match list_max xs with
  | Some m => Ok m
  | None => Raise ValueError
  end.

(** [argmax]: the index of the first maximal entry. *)
Fixpoint argmax_from (best_i : nat) (best : R) (i : nat) (xs : list R) : nat :=
  match xs with
  | [] => best_i
  | x :: rest =>
      if Rlt_dec best x
      then argmax_from i x (S i) rest
      else argmax_from best_i best (S i) rest
  end.

Definition argmax (xs : list R) : result nat :=
  match xs with
  | [] => Raise ValueError
  | x :: rest => Ok (argmax_from 0 x 1 rest)
  end.

(** Elementwise binary operation on two column tensors ([B,1]) with
    torch's broadcasting along the batch dimension. *)
Definition broadcast2 (f : R -> R -> R) (xs ys : list R) : result (list R) :=
  if (length xs =? length ys)%nat then Ok (map2 f xs ys)
  else
    match xs, ys with
    | [x], _ => Ok (map (f x) ys)
    | _, [y] => Ok (map (fun x => f x y) xs)
    | _, _ => Raise RuntimeError
    end.

Definition mean (xs : list R) : R :=
  fold_right Rplus 0 xs / INR (length xs).

(** ** The soft target update, [DQNAgent.update_target] *)

(** [t.mul_(c)] *)
Definition mul_ (t : Tensor) (c : R) : Tensor := map (fun x => x * c) t.

(** [torch.add(input, other, alpha=a)]: [input + a * other].  Tensors of
    different sizes are reported as a [RuntimeError]. *)
Definition torch_add (input other : Tensor) (a : R) : result Tensor :=
  if (length input =? length other)%nat
  then Ok (map2 (fun x y => x + a * y) input other)
  else Raise RuntimeError.

(** The loop over [zip(target_dqn.parameters(), dqn.parameters())].  The
    tensors are updated in place, so what was already written stays when a
    later pair raises. *)
Fixpoint soft_update_loop (tau : R) (target online : Params)
  : result unit * Params :=
  match target, online with
  | t :: ts, p :: ps =>
      let t1 := mul_ t (1 - tau) in
      match torch_add t1 p tau with
      | Ok t2 =>
          let '(r, ts') := soft_update_loop tau ts ps in
          (r, t2 :: ts')
      | Raise e => (Raise e, t1 :: ts)
      end
  | _, _ => (Ok tt, target)
  end.

(** ** Annealing of beta ([loss_param]), line 106 of [train]

    [self.loss_param *= 1+self.loss_param_decay if self.loss_param < 1 else 1]:
    the conditional expression is the whole right-hand side. *)
Definition anneal_loss_param (loss_param loss_param_decay : R) : R :=
  loss_param * (if Rlt_dec loss_param 1 then 1 + loss_param_decay else 1).

(** ** Importance-sampling weights, lines 103-105 of [train]

    [Rpower x y] is [x ** y] for a positive base [x]; for a base that is
    zero or negative numpy yields [inf] or [nan], which the reals do not
    have, so statements about the weights assume positive priorities. *)

Definition is_weights (N : nat) (priorities : list R) (loss_param : R)
  : result (list R) :=
  let w := map (fun p => Rpower (INR N * p) (- loss_param)) priorities in
  rbind (tensor_max w) (fun m => Ok (map (fun x => x / m) w)).

(** ** The bootstrap target, lines 98-102 of [train] *)

Definition bootstrap_target (gamma : R) (n_step : nat)
    (rewards : list R) (dones : list bool) (max_next_q : list R)
  : result (list R) :=
  let not_done := map (fun d => 1 - b2r d) dones in
  let discounted := map (fun x => x * gamma ^ n_step) not_done in
  rbind (broadcast2 Rmult discounted max_next_q) (fun boot =>
  broadcast2 Rplus rewards boot).

(** ** The per-sample loss and the priorities fed back, lines 108-109 *)

(** [F.mse_loss(curr_q, target, reduction="none")] *)
Definition mse_loss_none (curr_q target : list R) : result (list R) :=
  broadcast2 (fun q t => (q - t) ^ 2) curr_q target.

(** The second argument of [self.memory.update_priority]:
    [torch.abs(loss)]. *)
Definition priority_feedback (curr_q target : list R) : result (list R) :=
  rbind (mse_loss_none curr_q target) (fun loss => Ok (map Rabs loss)).

(** [param.grad.data.clamp_(-100,100)] *)
Definition clamp (lo hi x : R) : R := Rmin (Rmax x lo) hi.

(** ** Transitions and the n-step accumulator *)

Record Transition (Obs : Type) : Type := mkTransition {
  t_state : Obs;
  t_action : nat;
  t_reward : R;
  t_next_state : Obs;
  t_done : bool
}.

Arguments mkTransition {Obs}.
Arguments t_state {Obs}.
Arguments t_action {Obs}.
Arguments t_reward {Obs}.
Arguments t_next_state {Obs}.
Arguments t_done {Obs}.

Module NStep.
Section Accumulator.
Context {Obs : Type}.

Record NStepBuffer : Type := mkNStepBuffer {
  nsb_gamma : R;
  nsb_n_step : nat;
  nsb_window : list (Transition Obs)
}.

Definition empty (gamma : R) (n_step : nat) : NStepBuffer :=
  mkNStepBuffer gamma n_step [].

(** Modelled from the spec: the reward of a synthesized transition,
    [sum over i of gamma^i * r_i] over the window ([i] counted from the
    given offset). *)
Fixpoint discounted_sum (gamma : R) (i : nat) (w : list (Transition Obs)) : R :=
  match w with
  | [] => 0
  | t :: rest => gamma ^ i * t_reward t + discounted_sum gamma (S i) rest
  end.

(** Modelled from the spec: the synthesized transition, with the state
    and action of the oldest entry of the window, the discounted sum of
    its rewards, and the next state and done flag of its newest entry. *)
Definition synthesize (gamma : R) (oldest : Transition Obs)
    (window : list (Transition Obs)) : Transition Obs :=
  let newest := last window oldest in
  mkTransition (t_state oldest) (t_action oldest)
               (discounted_sum gamma 0 window)
               (t_next_state newest) (t_done newest).

(** Modelled from the spec: the transitions emitted when an episode
    ends ([agents/dqn/experience_replay.py] is not among the sources).
    The accumulator fully drains: it emits a transition for every
    remaining partial window, each window shorter by its oldest entry than
    the one before, hence with progressively shorter returns. *)
Fixpoint drain (gamma : R) (window : list (Transition Obs))
  : list (Transition Obs) :=
  match window with
  | [] => []
  | oldest :: rest => synthesize gamma oldest window :: drain gamma rest
  end.

(** What one call of [update] produces: the value of the call, an
    [Optional[Transition]], and every transition the accumulator emitted
    during the call, in order. *)
Record Emission : Type := mkEmission {
  returned : option (Transition Obs);
  emitted : list (Transition Obs)
}.

(** The value of a call is the transition synthesized from the window as
    it stood, the first one emitted. *)
Definition emit (out : list (Transition Obs)) : Emission :=
  mkEmission (hd_error out) out.

(** Modelled from the spec: [NStepBuffer.update] of
    [agents/dqn/experience_replay.py], which is not among the sources.
    Contract [update(state, action, reward, next_state, done) ->
    Optional[Transition]]: the step is appended to the window; while the
    window is shorter than [n] and [done] is false nothing is returned and
    nothing emitted; once the window holds [n] entries one transition is
    synthesized from it (state and action of the oldest entry, discounted
    sum of the rewards, next state and done flag of the newest entry),
    emitted and returned, and the window drops its oldest entry; when
    [done] is true the accumulator drains, emitting a transition for every
    remaining partial window, and resets to empty. *)
Definition update (b : NStepBuffer) (t : Transition Obs)
  : Emission * NStepBuffer :=
  let window := nsb_window b ++ [t] in
  if t_done t
  then (emit (drain (nsb_gamma b) window),
        mkNStepBuffer (nsb_gamma b) (nsb_n_step b) [])
  else if (length window <? nsb_n_step b)%nat
  then (emit [], mkNStepBuffer (nsb_gamma b) (nsb_n_step b) window)
  else
    match window with
    | [] => (emit [], b)
    | oldest :: rest =>
        (emit [synthesize (nsb_gamma b) oldest window],
         mkNStepBuffer (nsb_gamma b) (nsb_n_step b) rest)
    end.





End Accumulator.
Arguments NStepBuffer : clear implicits.
Arguments Emission : clear implicits.
End NStep.

(** ** The agent *)

Section Agent.

(** Observations, and the collaborators whose code is outside
    [agent.py]: the Q-network, autograd and the optimizer of torch, and
    the replay store. *)
Variable Obs : Type.

(** [Network.forward] on one observation: the action values. *)
Variable forward : Params -> Obs -> list R.

(** [final_loss.backward()]: the gradient of a scalar function of the
    online parameters, one tensor per parameter. *)
Variable backward : (Params -> R) -> Params -> Params.

(** [optim.Adam]: its state and one [step()] given the gradients. *)
Variable OptState : Type.
Variable optimizer_step : OptState -> Params -> Params -> OptState * Params.

(** [ReplayBuffer], whose code is not among the sources: the attribute
    [size] and [__len__] (both the number of occupied slots, by the spec,
    hence one function here), [update], [sample] and [update_priority].
    [Coins] is the randomness one call of [sample] consumes. *)
Variable Store : Type.
Variable Coins : Type.

Record Batch : Type := mkBatch {
  b_states : list Obs;
  b_actions : list nat;
  b_rewards : list R;
  b_next_states : list Obs;
  b_dones : list bool;
  b_priorities : list R;
  b_indexes : list nat
}.

Variable mem_size : Store -> nat.
Variable mem_update : Store -> Transition Obs -> Store.
Variable mem_sample : Store -> nat -> Coins -> result Batch.
Variable mem_update_priority : Store -> list nat -> list R -> Store.

Record DQNAgent : Type := mkAgent {
  batch_size : nat;
  alpha : R;
  loss_param : R;
  loss_param_decay : R;
  gamma : R;
  tau : R;
  n_step : nat;
  memory : Store;
  n_step_buffer : NStep.NStepBuffer Obs;
  epsilon : R;
  epsilon_decay : R;
  min_epsilon : R;
  dqn : Params;
  target_dqn : Params;
  optimizer : OptState
}.

Definition set_loss_param (v : R) (a : DQNAgent) : DQNAgent :=
  mkAgent (batch_size a) (alpha a) v (loss_param_decay a) (gamma a) (tau a)
          (n_step a) (memory a) (n_step_buffer a) (epsilon a)
          (epsilon_decay a) (min_epsilon a) (dqn a) (target_dqn a)
          (optimizer a).

Definition set_memory (v : Store) (a : DQNAgent) : DQNAgent :=
  mkAgent (batch_size a) (alpha a) (loss_param a) (loss_param_decay a)
          (gamma a) (tau a) (n_step a) v (n_step_buffer a) (epsilon a)
          (epsilon_decay a) (min_epsilon a) (dqn a) (target_dqn a)
          (optimizer a).

Definition set_n_step_buffer (v : NStep.NStepBuffer Obs) (a : DQNAgent)
  : DQNAgent :=
  mkAgent (batch_size a) (alpha a) (loss_param a) (loss_param_decay a)
          (gamma a) (tau a) (n_step a) (memory a) v (epsilon a)
          (epsilon_decay a) (min_epsilon a) (dqn a) (target_dqn a)
          (optimizer a).

Definition set_epsilon (v : R) (a : DQNAgent) : DQNAgent :=
  mkAgent (batch_size a) (alpha a) (loss_param a) (loss_param_decay a)
          (gamma a) (tau a) (n_step a) (memory a) (n_step_buffer a) v
          (epsilon_decay a) (min_epsilon a) (dqn a) (target_dqn a)
          (optimizer a).

Definition set_dqn (v : Params) (a : DQNAgent) : DQNAgent :=
  mkAgent (batch_size a) (alpha a) (loss_param a) (loss_param_decay a)
          (gamma a) (tau a) (n_step a) (memory a) (n_step_buffer a)
          (epsilon a) (epsilon_decay a) (min_epsilon a) v (target_dqn a)
          (optimizer a).

Definition set_target_dqn (v : Params) (a : DQNAgent) : DQNAgent :=
  mkAgent (batch_size a) (alpha a) (loss_param a) (loss_param_decay a)
          (gamma a) (tau a) (n_step a) (memory a) (n_step_buffer a)
          (epsilon a) (epsilon_decay a) (min_epsilon a) (dqn a) v
          (optimizer a).

Definition set_optimizer (v : OptState) (a : DQNAgent) : DQNAgent :=
  mkAgent (batch_size a) (alpha a) (loss_param a) (loss_param_decay a)
          (gamma a) (tau a) (n_step a) (memory a) (n_step_buffer a)
          (epsilon a) (epsilon_decay a) (min_epsilon a) (dqn a)
          (target_dqn a) v.

(** *** Methods run in a state-and-exception monad over the agent *)

Definition M (A : Type) : Type := DQNAgent -> result A * DQNAgent.

Definition ret {A} (x : A) : M A := fun a => (Ok x, a).

Definition bind {A B} (m : M A) (f : A -> M B) : M B :=
  fun a =>
    match m a with
    | (Ok x, a') => f x a'
    | (Raise e, a') => (Raise e, a')
    end.

Definition get : M DQNAgent := fun a => (Ok a, a).
Definition modify (f : DQNAgent -> DQNAgent) : M unit := fun a => (Ok tt, f a).
Definition lift {A} (r : result A) : M A := fun a => (r, a).

Notation "x <- m ;; k" := (bind m (fun x => k))
  (at level 61, m at next level, right associativity).
Notation "m ;;; k" := (bind m (fun _ => k))
  (at level 61, right associativity).

(** A [for] loop whose body may [return]. *)
Inductive control (A : Type) : Type :=
| Next
| Return (v : A).
Arguments Next {A}.
Arguments Return {A} v.

Fixpoint for_each {I A} (body : I -> M (control A)) (l : list I)
  : M (control A) :=
  match l with
  | [] => ret Next
  | i :: rest =>
      c <- body i ;;
      match c with
      | Return v => ret (Return v)
      | Next => for_each body rest
      end
  end.

(** *** [__init__], lines 48-53

    The loop variables are named the other way round in the source:
    [target_param] ranges over [self.dqn.parameters()] and is the
    destination of [copy_]. *)
Definition copy_ (dst src : Tensor) : result Tensor :=
  if (length dst =? length src)%nat then Ok src else Raise RuntimeError.

Fixpoint init_copy_loop (online target : Params) : result Params :=
  match online, target with
  | target_param :: os, param :: ts =>
      rbind (copy_ target_param param) (fun t' =>
      rbind (init_copy_loop os ts) (fun os' => Ok (t' :: os')))
  | _, _ => Ok online
  end.

(** [net_online], [net_target] and [opt0] are what the two calls of
    [Network(...)] and the call of [optim.Adam] return; [memory0] is the
    fresh [ReplayBuffer]. *)
Definition init (batch_size0 : nat) (n_step0 : nat)
    (alpha0 beta beta_decay gamma0 tau0 : R)
    (epsilon_init epsilon_decay0 min_epsilon0 : R)
    (memory0 : Store) (net_online net_target : Params) (opt0 : OptState)
  : result DQNAgent :=
  rbind (init_copy_loop net_online net_target) (fun online =>
  Ok (mkAgent batch_size0 alpha0 beta beta_decay gamma0 tau0 n_step0
              memory0 (NStep.empty gamma0 n_step0)
              epsilon_init epsilon_decay0 min_epsilon0
              online net_target opt0)).

(** *** [act], lines 57-70

    [u] is the value of [np.random.random()], [sampled] the action
    [self.action_space.sample()] returns when it is called. *)
Definition act (state : Obs) (evaluate : bool) (u : R) (sampled : nat)
  : M nat :=
  modify (fun a => set_epsilon (epsilon a * epsilon_decay a) a) ;;;
  modify (fun a => set_epsilon (Rmax (epsilon a) (min_epsilon a)) a) ;;;
  a <- get ;;
  if (if Rlt_dec u (epsilon a) then true else false) && negb evaluate
  then ret sampled
  else lift (argmax (forward (dqn a) state)).

(** *** [remember], lines 72-75 *)
Definition remember (t : Transition Obs) : M unit :=
  a <- get ;;
  let '(out, nsb) := NStep.update (n_step_buffer a) t in
  let experience := NStep.returned out in
  modify (set_n_step_buffer nsb) ;;;
  match experience with
  | Some e => modify (fun a => set_memory (mem_update (memory a) e) a)
  | None => ret tt
  end.

Fixpoint remember_all (steps : list (Transition Obs)) : M unit :=
  match steps with
  | [] => ret tt
  | t :: rest => remember t ;;; remember_all rest
  end.

(** *** [update_target], lines 132-136 *)
Definition update_target : M unit :=
  fun a =>
    let '(r, target) := soft_update_loop (tau a) (target_dqn a) (dqn a) in
    (r, set_target_dqn target a).

(** *** [save_model] and [load_model], lines 125-130

    The file system maps a path to the state dict stored there.  The keys
    of a state dict are the positions in the parameter list. *)
Definition FileSystem := String.string -> option Params.

Definition torch_load (fs : FileSystem) (path : String.string) : result Params :=
  match fs path with
  | Some sd => Ok sd
  | None => Raise FileNotFound
  end.

(** [Module.load_state_dict(sd)], strict as by default: every tensor of
    [sd] whose counterpart in the module has the same shape is copied in
    place; a tensor of another shape, a missing key and an unexpected key
    are errors, reported by one [RuntimeError] after all tensors have been
    gone through, so what fitted has been copied when it is raised. *)
Fixpoint load_state_dict (net sd : Params) : result unit * Params :=
  match net, sd with
  | [], [] => (Ok tt, [])
  | p :: ps, t :: ts =>
      let '(r, ps') := load_state_dict ps ts in
      if (length p =? length t)%nat
      then (r, t :: ps')
      else (Raise RuntimeError, p :: ps')
  | _, _ => (Raise RuntimeError, net)
  end.

Definition save_model (fs : FileSystem) (path : String.string) (a : DQNAgent)
  : FileSystem :=
  fun p => if String.eqb p path then Some (dqn a) else fs p.

Definition load_model (fs : FileSystem) (path : String.string) : M unit :=
  sd <- lift (torch_load fs path) ;;
  (fun a =>
     let '(r, online) := load_state_dict (dqn a) sd in
     (r, set_dqn online a)) ;;;
  sd' <- lift (torch_load fs path) ;;
  (fun a =>
     let '(r, target) := load_state_dict (target_dqn a) sd' in
     (r, set_target_dqn target a)).

(** *** [train], lines 78-123 *)

(** [self.dqn.forward(states).gather(-1, actions)]: the index may have
    fewer rows than the input, never more. *)
Definition gather (rows : list (list R)) (index : list nat)
  : result (list R) :=
  if (length index <=? length rows)%nat
  then mapM (fun '(row, i) =>
               match nth_error row i with
               | Some q => Ok q
               | None => Raise IndexError
               end)
            (combine rows index)
  else Raise RuntimeError.

(** The forward pass of the loss as a function of the online
    parameters; the targets and weights are constants (no gradient). *)
Definition per_sample_loss (theta : Params) (b : Batch) (target : list R)
  : result (list R) :=
  rbind (gather (map (forward theta) (b_states b)) (b_actions b))
        (fun curr_q => mse_loss_none curr_q target).

Definition final_loss (theta : Params) (b : Batch) (target w : list R)
  : result R :=
  rbind (per_sample_loss theta b target) (fun loss =>
  rbind (broadcast2 Rmult loss w) (fun weighted_loss =>
  Ok (mean weighted_loss))).

Definition loss_fn (b : Batch) (target w : list R) (theta : Params) : R :=
  match final_loss theta b target w with
  | Ok v => v
  | Raise _ => 0
  end.

(** One pass through the body of the [for] loop. *)
Definition train_epoch (coins : Coins) : M R :=
  a <- get ;;
  b <- lift (mem_sample (memory a) (batch_size a) coins) ;;
  curr_q <- lift (gather (map (forward (dqn a)) (b_states b)) (b_actions b)) ;;
  max_next_q <- lift (mapM tensor_max
                        (map (forward (target_dqn a)) (b_next_states b))) ;;
  target <- lift (bootstrap_target (gamma a) (n_step a)
                    (b_rewards b) (b_dones b) max_next_q) ;;
  w <- lift (is_weights (mem_size (memory a)) (b_priorities b)
               (loss_param a)) ;;
  modify (fun a =>
            set_loss_param
              (anneal_loss_param (loss_param a) (loss_param_decay a)) a) ;;;
  loss <- lift (mse_loss_none curr_q target) ;;
  modify (fun a =>
            set_memory
              (mem_update_priority (memory a) (b_indexes b)
                                   (map Rabs loss)) a) ;;;
  weighted_loss <- lift (broadcast2 Rmult loss w) ;;
  let grads := backward (loss_fn b target w) (dqn a) in
  let clamped := map (map (clamp (-100) 100)) grads in
  modify (fun a =>
            let '(opt, theta) :=
              optimizer_step (optimizer a) (dqn a) clamped in
            set_dqn theta (set_optimizer opt a)) ;;;
  update_target ;;;
  ret (mean weighted_loss).

(** [coins i] is the randomness available to the [i]-th pass. *)
Definition train (epochs : nat) (coins : nat -> Coins) : M pyval :=
  a <- get ;;
  if (mem_size (memory a) <? batch_size a)%nat
  then ret NegInf
  else
    c <- for_each
           (fun epoch =>
              l <- train_epoch (coins epoch) ;;
              ret (Return (Float l)))
           (seq 0 epochs) ;;
    match c with
    | Return v => ret v
    | Next => ret PyNone
    end.

(** The agents reachable from [a] by calls of [train], whatever each call
    returns or raises. *)
Inductive after_training (a : DQNAgent) : DQNAgent -> Prop :=
| at_start : after_training a a
| at_train a1 a' epochs coins r :
    after_training a a1 ->
    train epochs coins a1 = (r, a') ->
    after_training a a'.

End Agent.

Arguments mkBatch {Obs}.
Arguments b_states {Obs}.
Arguments b_actions {Obs}.
Arguments b_rewards {Obs}.
Arguments b_next_states {Obs}.
Arguments b_dones {Obs}.
Arguments b_priorities {Obs}.
Arguments b_indexes {Obs}.
Arguments mkAgent {Obs OptState Store}.
Arguments batch_size {Obs OptState Store}.
Arguments alpha {Obs OptState Store}.
Arguments loss_param {Obs OptState Store}.
Arguments loss_param_decay {Obs OptState Store}.
Arguments gamma {Obs OptState Store}.
Arguments tau {Obs OptState Store}.
Arguments n_step {Obs OptState Store}.
Arguments memory {Obs OptState Store}.
Arguments n_step_buffer {Obs OptState Store}.
Arguments epsilon {Obs OptState Store}.
Arguments epsilon_decay {Obs OptState Store}.
Arguments min_epsilon {Obs OptState Store}.
Arguments dqn {Obs OptState Store}.
Arguments target_dqn {Obs OptState Store}.
Arguments optimizer {Obs OptState Store}.
Arguments set_loss_param {Obs OptState Store}.
Arguments set_memory {Obs OptState Store}.
Arguments set_n_step_buffer {Obs OptState Store}.
Arguments set_epsilon {Obs OptState Store}.
Arguments set_dqn {Obs OptState Store}.
Arguments set_target_dqn {Obs OptState Store}.
Arguments set_optimizer {Obs OptState Store}.
Arguments ret {Obs OptState Store A}.
Arguments bind {Obs OptState Store A B}.
Arguments Next {A}.
Arguments Return {A} v.
Arguments init {Obs OptState Store}.
Arguments act {Obs} forward {OptState Store}.
Arguments remember {Obs OptState Store} mem_update.
Arguments remember_all {Obs OptState Store} mem_update.
Arguments update_target {Obs OptState Store}.
Arguments save_model {Obs OptState Store}.
Arguments load_model {Obs OptState Store}.
Arguments gather : clear implicits.
Arguments per_sample_loss {Obs} forward.
Arguments final_loss {Obs} forward.
Arguments loss_fn {Obs} forward.
Arguments train_epoch {Obs} forward backward {OptState} optimizer_step
  {Store Coins} mem_size mem_sample mem_update_priority.
Arguments train {Obs} forward backward {OptState} optimizer_step
  {Store Coins} mem_size mem_sample mem_update_priority.

Arguments after_training {Obs} forward backward {OptState} optimizer_step
  {Store Coins} mem_size mem_sample mem_update_priority.
Arguments at_start {Obs} forward backward {OptState} optimizer_step
  {Store Coins} mem_size mem_sample mem_update_priority.
Arguments at_train {Obs} forward backward {OptState} optimizer_step
  {Store Coins} mem_size mem_sample mem_update_priority.

(** ** The replay store *)

Module Replay.
Section Store.
Context {Obs : Type}.

Record ReplayBuffer : Type := mkReplayBuffer {
  capacity : nat;
  rb_alpha : R;
  rb_epsilon : R;
  slots : list (Transition Obs);
  priorities : list R;
  cursor : nat;
  max_priority : R
}.

Definition create (capacity0 : nat) (alpha0 epsilon0 : R) : ReplayBuffer :=
  mkReplayBuffer capacity0 alpha0 epsilon0 [] [] 0 1.

Definition size (rb : ReplayBuffer) : nat := length (slots rb).

Fixpoint set_nth {A} (i : nat) (v : A) (l : list A) : list A :=
  match l, i with
  | [], _ => []
  | _ :: rest, O => v :: rest
  | x :: rest, S j => x :: set_nth j v rest
  end.

Definition pick {A} (l : list A) (idx : list nat) : list A :=
  flat_map (fun i => match nth_error l i with
                     | Some x => [x]
                     | None => []
                     end) idx.

(** Modelled from the spec: [ReplayBuffer.update] of
    [agents/dqn/experience_replay.py], which is not among the sources.
    The transition is written at the cursor with the largest priority seen
    so far (1 for a fresh store); the cursor advances modulo the capacity
    and the size grows until the capacity is reached. *)
Definition update (rb : ReplayBuffer) (t : Transition Obs) : ReplayBuffer :=
  let p := max_priority rb in
  let c := ((cursor rb + 1) mod capacity rb)%nat in
  if (size rb <? capacity rb)%nat
  then mkReplayBuffer (capacity rb) (rb_alpha rb) (rb_epsilon rb)
                      (slots rb ++ [t]) (priorities rb ++ [p]) c p
  else mkReplayBuffer (capacity rb) (rb_alpha rb) (rb_epsilon rb)
                      (set_nth (cursor rb) t (slots rb))
                      (set_nth (cursor rb) p (priorities rb)) c p.

(** Modelled from the spec: [ReplayBuffer.update_priority], not among the
    sources: the priority at each given index becomes
    [|td_error| + epsilon_floor]. *)
Fixpoint update_priority (rb : ReplayBuffer) (indices : list nat)
    (td_errors : list R) : ReplayBuffer :=
  match indices, td_errors with
  | i :: indices', e :: td_errors' =>
      let p := Rabs e + rb_epsilon rb in
      update_priority
        (mkReplayBuffer (capacity rb) (rb_alpha rb) (rb_epsilon rb)
                        (slots rb) (set_nth i p (priorities rb))
                        (cursor rb) (Rmax (max_priority rb) p))
        indices' td_errors'
  | _, _ => rb
  end.

(** Modelled from the spec: [ReplayBuffer.sample], not among the sources.
    It fails when [batch_size] exceeds the size; [coins k] decides the
    [k]-th drawn slot; the priorities returned are
    [priority^alpha] normalised over the occupied slots. *)
Definition sample (rb : ReplayBuffer) (batch_size : nat) (coins : nat -> nat)
  : result (Batch Obs) :=
  if (size rb <? batch_size)%nat then Raise ValueError
  else
    let idx := map (fun k => (coins k mod size rb)%nat) (seq 0 batch_size) in
    let scaled := map (fun p => Rpower p (rb_alpha rb)) (priorities rb) in
    let total := fold_right Rplus 0 scaled in
    let picked := pick (slots rb) idx in
    Ok (mkBatch (map t_state picked) (map t_action picked)
                (map t_reward picked) (map t_next_state picked)
                (map t_done picked)
                (map (fun p => p / total) (pick scaled idx))
                idx).

End Store.
Arguments ReplayBuffer : clear implicits.
End Replay.

(** ** A small instance of the collaborators

    A linear Q-network (one weight row per action, observations are
    vectors), central differences for the gradient, plain gradient descent
    for the optimizer, and the replay store above. *)

Module Demo.

Definition Obs := list R.

Definition dot (u v : list R) : R := fold_right Rplus 0 (map2 Rmult u v).

Definition forward (theta : Params) (s : Obs) : list R :=
  map (fun row => dot row s) theta.

Definition bump (theta : Params) (i j : nat) (h : R) : Params :=
  match nth_error theta i with
  | Some row =>
      match nth_error row j with
      | Some x => Replay.set_nth i (Replay.set_nth j (x + h) row) theta
      | None => theta
      end
  | None => theta
  end.

Definition backward (L : Params -> R) (theta : Params) : Params :=
  map (fun '(i, row) =>
         map (fun j => (L (bump theta i j 1) - L (bump theta i j (-1))) / 2)
             (seq 0 (length row)))
      (combine (seq 0 (length theta)) theta).

Definition OptState := R.

Definition optimizer_step (lr : OptState) (theta grads : Params)
  : OptState * Params :=
  (lr, map2 (map2 (fun x g => x - lr * g)) theta grads).

Definition Store := Replay.ReplayBuffer Obs.
Definition Coins := nat -> nat.
Definition Agent := DQNAgent Obs OptState Store.

Definition act := act forward (OptState := OptState) (Store := Store).
Definition remember := remember (Obs := Obs) (OptState := OptState) Replay.update.
Definition remember_all :=
  remember_all (Obs := Obs) (OptState := OptState) Replay.update.
Definition train_epoch :=
  train_epoch forward backward optimizer_step
              Replay.size Replay.sample Replay.update_priority.
Definition train :=
  train forward backward optimizer_step
        Replay.size Replay.sample Replay.update_priority.

Definition step (s : Obs) (a : nat) (r : R) (s' : Obs) (d : bool)
  : Transition Obs := mkTransition s a r s' d.

(** Two actions over two-dimensional observations. *)
Definition theta0 : Params := [[1; 0]; [0; 1]].
Definition theta1 : Params := [[0; 2]; [1; 1]].

Definition store2 : Store :=
  Replay.update
    (Replay.update (Replay.create 10 (6/10) (1/10000))
                   (step [1; 0] 0 1 [0; 1] false))
    (step [0; 1] 1 2 [1; 1] true).

Definition agent0 (batch : nat) (mem : Store) (beta epsilon0 : R) : Agent :=
  mkAgent batch (6/10) beta (2/100000) (99/100) (1/100) 3 mem
          (NStep.empty (99/100) 3) epsilon0 (9995/10000) (1/100)
          theta0 theta1 (7/10000).

(** The defaults of the constructor, a batch of two and two stored
    transitions: ready to train. *)
Definition ready : Agent := agent0 2 store2 (4/10) (5/10).

(** The same with the default batch size of 32: not ready. *)
Definition not_ready : Agent := agent0 32 store2 (4/10) (5/10).

(** Beta just below 1. *)
Definition nearly_annealed : Agent := agent0 2 store2 (99999/100000) (5/10).

(** Beta already at 1. *)
Definition annealed : Agent := agent0 2 store2 1 (5/10).

(** [DQNAgent(observation_space, action_space, max_memory=1000,
    epsilon_init=e)], the other arguments at their defaults. *)
Definition construct (epsilon_init : R) : result Agent :=
  init 32 3 (6/10) (4/10) (2/100000) (99/100) (1/100)
       epsilon_init (9995/10000) (1/100)
       (Replay.create 1000 (6/10) (1/10000)) theta0 theta1 (7/10000).

(** The [k]-th draw of every pass picks slot [k]. *)
Definition coins0 : nat -> Coins := fun _ k => k.

(** A file system with one checkpoint, holding the parameters [theta1]. *)
Definition checkpoint : String.string := "model.pt"%string.

Definition disk : FileSystem :=
  fun p => if String.eqb p checkpoint then Some theta1 else None.


End Demo.

(** ** Sequences of calls *)

Section Runs.

Variable Obs : Type.
Variable forward : Params -> Obs -> list R.
Variable OptState : Type.
Variable Store : Type.

(** The arguments of one call of [act]: the state, [evaluate], the value
    drawn by [np.random.random()] and the action [action_space.sample()]
    would return. *)
Definition act_call : Type := (Obs * bool * R * nat)%type.

(** The agent after a sequence of calls of [act], whether they return or
    raise. *)
Fixpoint act_all (calls : list act_call) (a : DQNAgent Obs OptState Store)
  : DQNAgent Obs OptState Store :=
  match calls with
  | [] => a
  | (state, evaluate, u, sampled) :: rest =>
      act_all rest (snd (act forward state evaluate u sampled a))
  end.

(** The agent after [k] calls of [update_target]. *)
Definition update_target_times (k : nat) (a : DQNAgent Obs OptState Store)
  : DQNAgent Obs OptState Store :=
  Nat.iter k (fun a => snd (update_target a)) a.

End Runs.

Arguments act_all {Obs} forward {OptState Store}.
Arguments update_target_times {Obs OptState Store}.

(** * The environment wrappers ([utils/retro_wrappers.py])

    A gym environment is a state machine: [step] takes the state and an
    action to an observation, a reward, the [done] flag and the [info]
    dict, and the next state; [reset] gives the first observation.  A
    wrapper holds its own fields and the state of the environment it
    wraps. *)

Module Wrappers.

Inductive wexn : Type :=
| AssertionError
| UnboundLocalError   (* a local variable read before any assignment *)
| ConcatError.        (* np.concatenate on no arrays or unequal shapes *)

Inductive outcome (A : Type) : Type :=
| Returns (a : A)
| Raises (e : wexn).

Arguments Returns {A} a.
Arguments Raises {A} e.

Section Env.

Variable Obs : Type.
Variable Info : Type.
Variable EnvState : Type.

Definition StepResult : Type := (Obs * R * bool * Info)%type.

Variable env_step : EnvState -> nat -> StepResult * EnvState.
Variable env_reset : EnvState -> Obs * EnvState.

Definition sr_obs (r : StepResult) : Obs := fst (fst (fst r)).
Definition sr_reward (r : StepResult) : R := snd (fst (fst r)).
Definition sr_done (r : StepResult) : bool := snd (fst r).
Definition sr_info (r : StepResult) : Info := snd r.

(** The results of stepping the environment with the given actions, one
    after the other, and the state reached. *)
Fixpoint env_trace (actions : list nat) (e : EnvState)
  : list StepResult * EnvState :=
  match actions with
  | [] => ([], e)
  | ac :: rest =>
      let '(r, e1) := env_step e ac in
      let '(rs, e2) := env_trace rest e1 in
      (r :: rs, e2)
  end.

(** ** [TimeLimitWrapper], lines 292-308

    [mark info] is [info] after [info['TimeLimit.truncated'] = True]. *)
Variable mark : Info -> Info.

Record TimeLimit : Type := mkTimeLimit {
  tl_max_episode_steps : Z;
  tl_elapsed_steps : Z;
  tl_env : EnvState
}.

Definition TimeLimit_init (env : EnvState) (max_episode_steps : Z)
  : TimeLimit :=
  mkTimeLimit max_episode_steps 0 env.

Definition TimeLimit_step (w : TimeLimit) (ac : nat)
  : StepResult * TimeLimit :=
  let '((observation, reward, done, info), env) := env_step (tl_env w) ac in
  let elapsed := (tl_elapsed_steps w + 1)%Z in
  let w' := mkTimeLimit (tl_max_episode_steps w) elapsed env in
  if (tl_max_episode_steps w <=? elapsed)%Z
  then ((observation, reward, true, mark info), w')
  else ((observation, reward, done, info), w').

Definition TimeLimit_reset (w : TimeLimit) : Obs * TimeLimit :=
  let '(ob, env) := env_reset (tl_env w) in
  (ob, mkTimeLimit (tl_max_episode_steps w) 0 env).

(** The results of the wrapper's [step] over a list of actions. *)
Fixpoint TimeLimit_trace (actions : list nat) (w : TimeLimit)
  : list StepResult * TimeLimit :=
  match actions with
  | [] => ([], w)
  | ac :: rest =>
      let '(r, w1) := TimeLimit_step w ac in
      let '(rs, w2) := TimeLimit_trace rest w1 in
      (r :: rs, w2)
  end.

(** ** [PenalizeDoneWrapper], lines 329-338 *)

Record PenalizeDone : Type := mkPenalizeDone {
  pd_penalty : R;
  pd_env : EnvState
}.

Definition PenalizeDone_step (w : PenalizeDone) (action : nat)
  : StepResult * PenalizeDone :=
  let '((obs, reward, done, info), env) := env_step (pd_env w) action in
  let reward := if done then reward - pd_penalty w else reward in
  ((obs, reward, done, info), mkPenalizeDone (pd_penalty w) env).

(** ** [EpisodicLifeEnv], lines 60-94

    [lives e] is [env.unwrapped.ale.lives()] in the state [e]. *)
Variable lives : EnvState -> Z.

Record EpisodicLife : Type := mkEpisodicLife {
  el_lives : Z;
  el_was_real_done : bool;
  el_env : EnvState
}.

Definition EpisodicLife_init (env : EnvState) : EpisodicLife :=
  mkEpisodicLife 0 true env.

Definition EpisodicLife_step (w : EpisodicLife) (action : nat)
  : StepResult * EpisodicLife :=
  let '((obs, reward, done, info), env) := env_step (el_env w) action in
  let was_real_done := done in
  let l := lives env in
  let done := if (l <? el_lives w)%Z && (0 <? l)%Z then true else done in
  ((obs, reward, done, info), mkEpisodicLife l was_real_done env).

Definition EpisodicLife_reset (w : EpisodicLife) : Obs * EpisodicLife :=
  let '(obs, env) :=
    if el_was_real_done w
    then env_reset (el_env w)
    else let '(r, env) := env_step (el_env w) 0 in (sr_obs r, env) in
  (obs, mkEpisodicLife (lives env) (el_was_real_done w) env).

(** ** [FrameStack], lines 218-245

    [deque([], maxlen=k)]: appending to a full deque drops its oldest
    element. *)
Definition last_n {A} (k : nat) (l : list A) : list A :=
  skipn (length l - k) l.

Definition deque_append {A} (maxlen : nat) (d : list A) (x : A) : list A :=
  last_n maxlen (d ++ [x]).

Record FrameStack : Type := mkFrameStack {
  fs_k : nat;
  fs_frames : list Obs;
  fs_env : EnvState
}.

Definition FrameStack_init (env : EnvState) (k : nat) : FrameStack :=
  mkFrameStack k [] env.

(** [_get_ob]: the frames handed to [LazyFrames]. *)
Definition FrameStack_get_ob (w : FrameStack) : outcome (list Obs) :=
  if (length (fs_frames w) =? fs_k w)%nat
  then Returns (fs_frames w)
  else Raises AssertionError.

Fixpoint append_times (maxlen : nat) (n : nat) (d : list Obs) (ob : Obs)
  : list Obs :=
  match n with
  | O => d
  | S n' => append_times maxlen n' (deque_append maxlen d ob) ob
  end.

Definition FrameStack_reset (w : FrameStack)
  : outcome (list Obs) * FrameStack :=
  let '(ob, env) := env_reset (fs_env w) in
  let w' := mkFrameStack (fs_k w)
              (append_times (fs_k w) (fs_k w) (fs_frames w) ob) env in
  (FrameStack_get_ob w', w').

Definition FrameStack_step (w : FrameStack) (action : nat)
  : outcome (list Obs * R * bool * Info) * FrameStack :=
  let '((ob, reward, done, info), env) := env_step (fs_env w) action in
  let w' := mkFrameStack (fs_k w)
              (deque_append (fs_k w) (fs_frames w) ob) env in
  (match FrameStack_get_ob w' with
   | Returns frames => Returns (frames, reward, done, info)
   | Raises e => Raises e
   end, w').

(** The wrapper after a list of [step] calls, whether they return or
    raise. *)
Fixpoint FrameStack_steps (actions : list nat) (w : FrameStack)
  : FrameStack :=
  match actions with
  | [] => w
  | ac :: rest => FrameStack_steps rest (snd (FrameStack_step w ac))
  end.

End Env.

Arguments sr_obs {Obs Info}.
Arguments sr_reward {Obs Info}.
Arguments sr_done {Obs Info}.
Arguments sr_info {Obs Info}.
Arguments env_trace {Obs Info EnvState}.
Arguments mkTimeLimit {EnvState}.
Arguments tl_max_episode_steps {EnvState}.
Arguments tl_elapsed_steps {EnvState}.
Arguments tl_env {EnvState}.
Arguments TimeLimit_init {EnvState}.
Arguments TimeLimit_step {Obs Info EnvState}.
Arguments TimeLimit_reset {Obs EnvState}.
Arguments TimeLimit_trace {Obs Info EnvState}.
Arguments mkPenalizeDone {EnvState}.
Arguments pd_penalty {EnvState}.
Arguments pd_env {EnvState}.
Arguments PenalizeDone_step {Obs Info EnvState}.
Arguments mkEpisodicLife {EnvState}.
Arguments el_lives {EnvState}.
Arguments el_was_real_done {EnvState}.
Arguments el_env {EnvState}.
Arguments EpisodicLife_init {EnvState}.
Arguments EpisodicLife_step {Obs Info EnvState}.
Arguments EpisodicLife_reset {Obs Info EnvState}.
Arguments mkFrameStack {Obs EnvState}.
Arguments fs_k {Obs EnvState}.
Arguments fs_frames {Obs EnvState}.
Arguments fs_env {Obs EnvState}.
Arguments FrameStack_init {Obs EnvState}.
Arguments FrameStack_get_ob {Obs EnvState}.
Arguments append_times {Obs}.
Arguments FrameStack_reset {Obs EnvState}.
Arguments FrameStack_step {Obs Info EnvState}.
Arguments FrameStack_steps {Obs Info EnvState}.

(** ** [MaxAndSkipEnv], lines 96-122

    Frames are [uint8] arrays, here the list of their pixels; all frames
    of an environment have the shape of its observation space, so that
    [self._obs_buffer[j] = obs] replaces the whole slot. *)

Definition Frame := list nat.

Definition frame_max (f g : Frame) : Frame := map2 Nat.max f g.

Section MaxAndSkip.

Variable Info : Type.
Variable EnvState : Type.
Variable env_step : EnvState -> nat -> (Frame * R * bool * Info) * EnvState.

Record MaxAndSkip : Type := mkMaxAndSkip {
  ms_obs_buffer : Frame * Frame;
  ms_skip : nat;
  ms_env : EnvState
}.

(** [np.zeros((2,)+env.observation_space.shape)], for an observation
    space of [pixels] elements. *)
Definition MaxAndSkip_init (env : EnvState) (pixels : nat) (skip : nat)
  : MaxAndSkip :=
  mkMaxAndSkip (repeat 0%nat pixels, repeat 0%nat pixels) skip env.

(** The local variables of [step] while the loop runs; [done] and [info]
    are unassigned ([None]) until the first pass. *)
Record SkipLoop : Type := mkSkipLoop {
  sl_buffer : Frame * Frame;
  sl_total_reward : R;
  sl_last : option (bool * Info);
  sl_env : EnvState
}.

(** The passes of [for i in range(self._skip)] for the given values of
    [i], with the [break] on [done]. *)
Fixpoint skip_loop (skip : nat) (action : nat) (indices : list nat)
    (s : SkipLoop) : SkipLoop :=
  match indices with
  | [] => s
  | i :: rest =>
      let '((obs, reward, done, info), env) := env_step (sl_env s) action in
      let b0 := if (Z.of_nat i =? Z.of_nat skip - 2)%Z
                then obs else fst (sl_buffer s) in
      let b1 := if (Z.of_nat i =? Z.of_nat skip - 1)%Z
                then obs else snd (sl_buffer s) in
      let s' := mkSkipLoop (b0, b1) (sl_total_reward s + reward)
                           (Some (done, info)) env in
      if done then s' else skip_loop skip action rest s'
  end.

Definition MaxAndSkip_step (w : MaxAndSkip) (action : nat)
  : outcome (Frame * R * bool * Info) * MaxAndSkip :=
  let s := skip_loop (ms_skip w) action (seq 0 (ms_skip w))
                     (mkSkipLoop (ms_obs_buffer w) 0 None (ms_env w)) in
  let max_frame := frame_max (fst (sl_buffer s)) (snd (sl_buffer s)) in
  let w' := mkMaxAndSkip (sl_buffer s) (ms_skip w) (sl_env s) in
  match sl_last s with
  | Some (done, info) =>
      (Returns (max_frame, sl_total_reward s, done, info), w')
  | None => (Raises UnboundLocalError, w')
  end.

(** The number of passes the loop makes over the results the environment
    would give: up to and including the first one that is [done]. *)
Fixpoint passes (rs : list (Frame * R * bool * Info)) : nat :=
  match rs with
  | [] => O
  | r :: rest => if sr_done r then 1%nat else S (passes rest)
  end.

(** A slot of the buffer after passes [s], [s + 1], ... have seen the
    observations [seen]: the one of pass [target] if it is among them. *)
Definition slot_after (target : Z) (s : nat) (seen : list Frame)
    (old : Frame) : Frame :=
  if (Z.of_nat s <=? target)%Z
     && (target <? Z.of_nat (s + length seen))%Z
  then nth (Z.to_nat (target - Z.of_nat s)) seen old
  else old.

End MaxAndSkip.

Arguments mkMaxAndSkip {EnvState}.
Arguments ms_obs_buffer {EnvState}.
Arguments ms_skip {EnvState}.
Arguments ms_env {EnvState}.
Arguments MaxAndSkip_init {EnvState}.
Arguments mkSkipLoop {Info EnvState}.
Arguments sl_buffer {Info EnvState}.
Arguments sl_total_reward {Info EnvState}.
Arguments sl_last {Info EnvState}.
Arguments sl_env {Info EnvState}.
Arguments skip_loop {Info EnvState}.
Arguments MaxAndSkip_step {Info EnvState}.
Arguments passes {Info}.

(** ** Image arrays

    An array of three dimensions: its shape and its elements. *)

Record Array3 (V : Type) : Type := mkArray3 {
  a_shape : nat * nat * nat;
  a_at : nat -> nat -> nat -> V
}.

Arguments mkArray3 {V}.
Arguments a_shape {V}.
Arguments a_at {V}.

Definition dim0 {V} (x : Array3 V) : nat := fst (fst (a_shape x)).
Definition dim1 {V} (x : Array3 V) : nat := snd (fst (a_shape x)).
Definition dim2 {V} (x : Array3 V) : nat := snd (a_shape x).

(** [np.swapaxes(x, -3, -1)] and [np.swapaxes(x, -1, -2)]. *)
Definition swapaxes_first_last {V} (x : Array3 V) : Array3 V :=
  mkArray3 (dim2 x, dim1 x, dim0 x) (fun i j k => a_at x k j i).

Definition swapaxes_last_two {V} (x : Array3 V) : Array3 V :=
  mkArray3 (dim0 x, dim2 x, dim1 x) (fun i j k => a_at x i k j).

(** [x[r0:r1, c0:c1]] for indices that are not negative: a slice stops at
    the end of the array. *)
Definition slice_rows_cols {V} (x : Array3 V) (r0 r1 c0 c1 : nat)
  : Array3 V :=
  mkArray3 (Nat.min r1 (dim0 x) - Nat.min r0 (dim0 x),
            Nat.min c1 (dim1 x) - Nat.min c0 (dim1 x),
            dim2 x)%nat
           (fun i j k => a_at x (r0 + i)%nat (c0 + j)%nat k).

(** *** [ObsReshape], lines 310-319 *)

(** The shape of the observation space [__init__] declares. *)
Definition ObsReshape_new_shape (shape : nat * nat * nat) : nat * nat * nat :=
  let '(s0, s1, s2) := shape in (s2, s1, s0).

Definition ObsReshape_observation {V} (observation : Array3 V) : Array3 V :=
  swapaxes_last_two (swapaxes_first_last observation).

(** *** [WarpCutFrame], lines 185-216

    The fields are the integers [__init__] computes; its percentages are
    taken not to be negative. *)
Record WarpCutFrame : Type := mkWarpCutFrame {
  wc_height : nat;
  wc_width : nat;
  wc_y : nat;
  wc_x : nat
}.

(** The shape of the observation space [__init__] declares. *)
Definition WarpCutFrame_new_shape (w : WarpCutFrame)
    (shape : nat * nat * nat) : nat * nat * nat :=
  (wc_height w, wc_width w, snd shape).

Definition WarpCutFrame_observation {V} (w : WarpCutFrame) (obs : Array3 V)
  : Array3 V :=
  slice_rows_cols obs (wc_y w) (wc_y w + wc_height w)%nat
                      (wc_x w) (wc_x w + wc_width w)%nat.

(** *** [ScaledFloatFrame], lines 247-255 *)
Definition ScaledFloatFrame_observation (observation : Array3 nat)
  : Array3 R :=
  mkArray3 (a_shape observation)
           (fun i j k => INR (a_at observation i j k) / 255).

(** ** [LazyFrames], lines 257-290 *)

(** [np.concatenate(frames, axis=-1)] on arrays of three dimensions that
    agree on the first two; element [k] of the last axis belongs to the
    first frame whose channels are not exhausted. *)
Fixpoint concat_at (frames : list (Array3 nat)) (i j k : nat) : nat :=
  match frames with
  | [] => 0%nat
  | f :: rest =>
      if (k <? snd (a_shape f))%nat then a_at f i j k
      else concat_at rest i j (k - snd (a_shape f))
  end.

Definition same_plane (f g : Array3 nat) : bool :=
  (fst (fst (a_shape f)) =? fst (fst (a_shape g)))%nat
  && (snd (fst (a_shape f)) =? snd (fst (a_shape g)))%nat.

Definition concatenate (frames : list (Array3 nat))
  : outcome (Array3 nat) :=
  match frames with
  | [] => Raises ConcatError
  | f :: rest =>
      if forallb (same_plane f) rest
      then Returns
             (mkArray3 (fst (fst (a_shape f)), snd (fst (a_shape f)),
                        fold_right Nat.add 0%nat
                                   (map (fun g => snd (a_shape g)) frames))
                       (concat_at frames))
      else Raises ConcatError
  end.

Record LazyFrames : Type := mkLazyFrames {
  lf_frames : option (list (Array3 nat));
  lf_out : option (Array3 nat)
}.

Definition LazyFrames_init (frames : list (Array3 nat)) : LazyFrames :=
  mkLazyFrames (Some frames) None.

Definition LazyFrames_force (l : LazyFrames)
  : outcome (Array3 nat) * LazyFrames :=
  match lf_out l with
  | Some out => (Returns out, l)
  | None =>
      match lf_frames l with
      | Some frames =>
          match concatenate frames with
          | Returns out => (Returns out, mkLazyFrames None (Some out))
          | Raises e => (Raises e, l)
          end
      | None => (Raises ConcatError, l)
      end
  end.

(** [count()]: the size of the last axis. *)
Definition LazyFrames_count (l : LazyFrames) : outcome nat * LazyFrames :=
  match LazyFrames_force l with
  | (Returns frames, l') => (Returns (snd (a_shape frames)), l')
  | (Raises e, l') => (Raises e, l')
  end.

(** [__len__()]: the size of the first axis. *)
Definition LazyFrames_len (l : LazyFrames) : outcome nat * LazyFrames :=
  match LazyFrames_force l with
  | (Returns frames, l') => (Returns (fst (fst (a_shape frames))), l')
  | (Raises e, l') => (Raises e, l')
  end.

(** ** Observation spaces and the wrapper chains, lines 353-398 *)

Inductive dtype : Type := uint8 | float32.

Record Box : Type := mkBox {
  box_shape : list nat;
  box_dtype : dtype
}.

Definition is_uint8 (d : dtype) : bool :=
  match d with uint8 => true | float32 => false end.

(** [WarpFrame.__init__] with its defaults (84 by 84, grayscale, no
    key): the new space, unless the assertion on the old one fails. *)
Definition WarpFrame_space (s : Box) : outcome Box :=
  if is_uint8 (box_dtype s) && (length (box_shape s) =? 3)%nat
  then Returns (mkBox [84; 84; 1]%nat uint8)
  else Raises AssertionError.

(** [FrameStack.__init__]: [shp[:-1] + (shp[-1] * k,)]; an empty shape
    has no last element. *)
Definition FrameStack_space (k : nat) (s : Box) : option Box :=
  match rev (box_shape s) with
  | [] => None
  | c :: front => Some (mkBox (rev front ++ [c * k]%nat) (box_dtype s))
  end.

Definition ScaledFloatFrame_space (s : Box) : Box :=
  mkBox (box_shape s) float32.

(** [ObsReshape.__init__] reads the first three dimensions. *)
Definition ObsReshape_space (s : Box) : option Box :=
  match box_shape s with
  | s0 :: s1 :: s2 :: _ => Some (mkBox [s2; s1; s0] float32)
  | _ => None
  end.

(** [WarpCutFrame.__init__] with its defaults ([width=1], [height=0.5],
    [x=0], [y=0]): the products are exact, [int(h * 0.5)] is [h / 2]. *)
Definition WarpCutFrame_space (s : Box) : option (outcome Box) :=
  match box_shape s with
  | s0 :: s1 :: s2 :: rest =>
      Some (if is_uint8 (box_dtype s)
               && (length (box_shape s) =? 3)%nat
            then Returns (mkBox [s0 / 2; s1; s2]%nat uint8)
            else Raises AssertionError)
  | _ => None
  end.

(** The observation space of the environment each chain hands to its
    discretizer; [None] stands for the [IndexError] of a shape that is
    too short.  [MaxAndSkipEnv], [TimeLimitWrapper] and
    [PenalizeDoneWrapper] keep the space of the environment they wrap. *)
Definition wrap_tail (transpose : bool) (warped : outcome Box)
  : option (outcome Box) :=
  match warped with
  | Raises e => Some (Raises e)
  | Returns s =>
      match FrameStack_space 4 s with
      | None => None
      | Some stacked =>
          let scaled := ScaledFloatFrame_space stacked in
          if transpose
          then match ObsReshape_space scaled with
               | Some r => Some (Returns r)
               | None => None
               end
          else Some (Returns scaled)
      end
  end.

Definition wrap_retro (env : Box) (transpose : bool) : option (outcome Box) :=
  wrap_tail transpose (WarpFrame_space env).

Definition wrap_mario_kart (env : Box) (transpose : bool)
  : option (outcome Box) :=
  match WarpCutFrame_space env with
  | None => None
  | Some (Raises e) => Some (Raises e)
  | Some (Returns cut) => wrap_tail transpose (WarpFrame_space cut)
  end.

Definition wrap_fzero (env : Box) (transpose : bool) : option (outcome Box) :=
  wrap_tail transpose (WarpFrame_space env).

Definition wrap_megaman (env : Box) (transpose : bool)
  : option (outcome Box) :=
  wrap_tail transpose (WarpFrame_space env).

End Wrappers.

Module DemoEnv.

(** A small environment for the wrappers: the state counts the steps
    taken; a step shows the count and the action as a frame of two
    pixels, pays 1, is [done] from the third step on, and its [info] is
    the count; three lives, one lost every step. *)
Definition env_step (e : nat) (ac : nat)
  : (Wrappers.Frame * R * bool * nat) * nat :=
  (([e; ac], 1, (2 <=? e)%nat, e), S e).

Definition env_reset (e : nat) : Wrappers.Frame * nat := ([0; 0]%nat, 0%nat).

Definition env_mark (info : nat) : nat := (info + 100)%nat.

Definition env_lives (e : nat) : Z := (3 - Z.of_nat e)%Z.

(** A frame of two rows, three columns and two channels. *)
Definition image : Wrappers.Array3 nat :=
  Wrappers.mkArray3 (2, 3, 2)%nat (fun i j k => (100 * i + 10 * j + k)%nat).

(** Two grayscale frames of two rows and three columns. *)
Definition gray (v : nat) : Wrappers.Array3 nat :=
  Wrappers.mkArray3 (2, 3, 1)%nat (fun i j _ => (v + 10 * i + j)%nat).

(** The screen of a console: 224 rows, 256 columns, three colours. *)
Definition screen : Wrappers.Box :=
  Wrappers.mkBox [224; 256; 3]%nat Wrappers.uint8.

(** A time limit of two steps on the environment in its first state. *)
Definition limited : Wrappers.TimeLimit nat :=
  Wrappers.TimeLimit_init 0%nat 2%Z.

(** A crop of the upper half of [image]. *)
Definition upper_half : Wrappers.WarpCutFrame :=
  Wrappers.mkWarpCutFrame 1 3 0 0.

End DemoEnv.

(** * Properties *)

(** ** Lists and tensors *)

Lemma nth_error_map2 {A B C} (f : A -> B -> C) xs ys i x y :
  nth_error xs i = Some x ->
  nth_error ys i = Some y ->
  nth_error (map2 f xs ys) i = Some (f x y).
Proof.
  revert ys i.
  induction xs as [|x0 xs IH]; intros [|y0 ys] [|i] Hx Hy;
    simpl in *; try discriminate.
  - congruence.
  - now apply IH.
Qed.

Lemma length_map2 {A B C} (f : A -> B -> C) xs ys :
  length xs = length ys -> length (map2 f xs ys) = length xs.
Proof.
  revert ys.
  induction xs as [|x xs IH]; intros [|y ys] H; simpl in *;
    try discriminate; auto.
Qed.

Lemma broadcast2_same_length f xs ys :
  length xs = length ys -> broadcast2 f xs ys = Ok (map2 f xs ys).
Proof.
  intros H. unfold broadcast2.
  now rewrite (proj2 (Nat.eqb_eq _ _) H).
Qed.

Lemma mapM_length {A B} (f : A -> result B) l ys :
  mapM f l = Ok ys -> length ys = length l.
Proof.
  revert ys.
  induction l as [|x l IH]; simpl; intros ys H.
  - now inversion H.
  - destruct (f x); try discriminate.
    destruct (mapM f l); try discriminate.
    inversion H; subst. simpl. f_equal. now apply IH.
Qed.

Lemma mapM_nth_error {A B} (f : A -> result B) l ys i x :
  mapM f l = Ok ys ->
  nth_error l i = Some x ->
  exists y, f x = Ok y /\ nth_error ys i = Some y.
Proof.
  revert ys i.
  induction l as [|x0 l IH]; simpl; intros ys i H Hi.
  - destruct i; discriminate.
  - destruct (f x0) as [y0|] eqn:E0; try discriminate.
    destruct (mapM f l) as [ys0|] eqn:E; try discriminate.
    inversion H; subst.
    destruct i as [|i]; simpl in *.
    + inversion Hi; subst. now exists y0.
    + now apply (IH ys0).
Qed.

Lemma list_max_ge xs m :
  list_max xs = Some m -> Forall (fun x => x <= m) xs.
Proof.
  revert m.
  induction xs as [|x xs IH]; simpl; intros m H.
  - constructor.
  - destruct (list_max xs) as [m'|] eqn:E.
    + inversion H; subst. constructor.
      * apply Rmax_l.
      * specialize (IH m' eq_refl).
        eapply Forall_impl; [|exact IH].
        intros y Hy. simpl in Hy.
        eapply Rle_trans; [exact Hy | apply Rmax_r].
    + inversion H; subst.
      destruct xs; [|simpl in E; destruct (list_max xs); discriminate].
      constructor; [apply Rle_refl | constructor].
Qed.

Lemma list_max_in xs m : list_max xs = Some m -> In m xs.
Proof.
  revert m.
  induction xs as [|x xs IH]; simpl; intros m H; try discriminate.
  destruct (list_max xs) as [m'|] eqn:E.
  - inversion H; subst.
    unfold Rmax. destruct (Rle_dec x m'); auto.
  - inversion H; auto.
Qed.

Lemma list_max_nonempty xs : xs <> [] -> exists m, list_max xs = Some m.
Proof.
  destruct xs as [|x xs]; [congruence|]. intros _. simpl.
  destruct (list_max xs); eexists; reflexivity.
Qed.

Lemma list_max_scale c xs m :
  0 < c ->
  list_max xs = Some m ->
  list_max (map (fun x => x / c) xs) = Some (m / c).
Proof.
  intros Hc. revert m.
  induction xs as [|x xs IH]; simpl; intros m H; try discriminate.
  destruct (list_max xs) as [m'|] eqn:E.
  - rewrite (IH m' eq_refl). inversion H; subst. f_equal.
    assert (Hi : 0 < / c) by now apply Rinv_0_lt_compat.
    unfold Rmax, Rdiv.
    destruct (Rle_dec x m'), (Rle_dec (x * / c) (m' * / c));
      try reflexivity; exfalso; nra.
  - destruct xs; [|simpl in E; destruct (list_max xs); discriminate].
    simpl. now inversion H.
Qed.

(** [argmax] returns a position of the output that holds a maximal
    value, and the first such position. *)
Lemma argmax_from_spec xs : forall bi b i pre,
  length pre = i ->
  (bi < i)%nat ->
  nth_error pre bi = Some b ->
  Forall (fun x => x <= b) pre ->
  (forall j x, (j < bi)%nat -> nth_error pre j = Some x -> x < b) ->
  let k := argmax_from bi b i xs in
  exists v, nth_error (pre ++ xs) k = Some v /\
            Forall (fun x => x <= v) (pre ++ xs) /\
            (forall j x, (j < k)%nat -> nth_error (pre ++ xs) j = Some x -> x < v).
Proof.
  induction xs as [|x xs IH]; intros bi b i pre Hlen Hbi Hnth Hall Hfirst; simpl.
  - rewrite app_nil_r. exists b. auto.
  - destruct (Rlt_dec b x) as [Hlt|Hge].
    + specialize (IH i x (S i) (pre ++ [x])).
      rewrite <- app_assoc in IH. simpl in IH. apply IH.
      * rewrite length_app. simpl. lia.
      * lia.
      * rewrite nth_error_app2 by lia.
        replace (i - length pre)%nat with 0%nat by lia. reflexivity.
      * apply Forall_app. split.
        -- eapply Forall_impl; [|exact Hall]. simpl. intros; lra.
        -- constructor; [lra | constructor].
      * intros j y Hj Hy.
        rewrite nth_error_app1 in Hy by lia.
        rewrite Forall_forall in Hall.
        apply nth_error_In in Hy. apply Hall in Hy. lra.
    + specialize (IH bi b (S i) (pre ++ [x])).
      rewrite <- app_assoc in IH. simpl in IH. apply IH.
      * rewrite length_app. simpl. lia.
      * lia.
      * rewrite nth_error_app1 by lia. exact Hnth.
      * apply Forall_app. split; [exact Hall|].
        constructor; [lra | constructor].
      * intros j y Hj Hy.
        rewrite nth_error_app1 in Hy by lia.
        now apply (Hfirst j).
Qed.

Lemma argmax_spec xs k :
  argmax xs = Ok k ->
  exists v, nth_error xs k = Some v /\
            Forall (fun x => x <= v) xs /\
            (forall j x, (j < k)%nat -> nth_error xs j = Some x -> x < v).
Proof.
  destruct xs as [|x xs]; simpl; intros H; inversion H; subst.
  apply (argmax_from_spec xs 0%nat x 1%nat [x]); auto.
  - constructor; [lra | constructor].
  - intros j y Hj. lia.
Qed.

(** ** The soft update loop *)

Lemma soft_update_loop_ok tau target online :
  map (@length R) target = map (@length R) online ->
  soft_update_loop tau target online
  = (Ok tt, map2 (map2 (fun x y => x * (1 - tau) + tau * y)) target online).
Proof.
  revert online.
  induction target as [|t ts IH]; intros [|p ps] H; simpl in *;
    try discriminate; try reflexivity.
  inversion H as [[Hl Hrest]].
  unfold torch_add, mul_. rewrite length_map, Hl, Nat.eqb_refl.
  rewrite (IH ps Hrest). f_equal. f_equal.
  clear. revert p.
  induction t as [|x t IHt]; intros [|y p]; simpl; auto.
  now rewrite IHt.
Qed.

(** ** Loading a state dict *)

Lemma load_state_dict_ok net sd :
  map (@length R) net = map (@length R) sd ->
  load_state_dict net sd = (Ok tt, sd).
Proof.
  revert sd.
  induction net as [|p ps IH]; intros [|t ts] H; simpl in *;
    try discriminate; try reflexivity.
  inversion H as [[Hl Hrest]].
  now rewrite (IH ts Hrest), Hl, Nat.eqb_refl.
Qed.

Lemma load_state_dict_ok_inv net sd ps :
  load_state_dict net sd = (Ok tt, ps) ->
  ps = sd /\ map (@length R) net = map (@length R) sd.
Proof.
  revert sd ps.
  induction net as [|p ps0 IH]; intros [|t ts] ps H; simpl in *;
    try discriminate.
  - inversion H. auto.
  - destruct (load_state_dict ps0 ts) as [r ps'] eqn:E.
    destruct (Nat.eqb_spec (length p) (length t)) as [Hl|Hl];
      [|discriminate].
    inversion H; subst.
    destruct (IH ts ps' E) as [-> Hrest].
    split; [reflexivity | congruence].
Qed.

Lemma load_state_dict_result net sd :
  fst (load_state_dict net sd) = Ok tt \/
  fst (load_state_dict net sd) = Raise RuntimeError.
Proof.
  revert sd.
  induction net as [|p ps IH]; intros [|t ts]; simpl; auto.
  specialize (IH ts).
  destruct (load_state_dict ps ts) as [r ps'].
  destruct (length p =? length t)%nat; simpl in *; auto.
Qed.

Lemma load_state_dict_raises net sd :
  map (@length R) net <> map (@length R) sd ->
  fst (load_state_dict net sd) = Raise RuntimeError.
Proof.
  intros Hne.
  destruct (load_state_dict_result net sd) as [H|H]; [|exact H].
  exfalso. apply Hne.
  destruct (load_state_dict net sd) as [r ps] eqn:E. simpl in H. subst r.
  exact (proj2 (load_state_dict_ok_inv _ _ _ E)).
Qed.

Lemma load_state_dict_length net sd :
  length (snd (load_state_dict net sd)) = length net.
Proof.
  revert sd.
  induction net as [|p ps IH]; intros [|t ts]; simpl; auto.
  specialize (IH ts).
  destruct (load_state_dict ps ts) as [r ps'].
  destruct (length p =? length t)%nat; simpl in *; now rewrite IH.
Qed.

(** What the module holds after [load_state_dict], also when it raised:
    at every position the tensor of the state dict when it fits, and the
    module's own tensor otherwise. *)
Lemma load_state_dict_nth net sd : forall i p,
  nth_error net i = Some p ->
  nth_error (snd (load_state_dict net sd)) i
  = Some match nth_error sd i with
         | Some t => if (length p =? length t)%nat then t else p
         | None => p
         end.
Proof.
  revert sd.
  induction net as [|p0 ps IH]; intros [|t ts] i p H;
    try (destruct i; discriminate).
  - simpl. rewrite H. now destruct i.
  - simpl. specialize (IH ts).
    destruct (load_state_dict ps ts) as [r ps'].
    destruct i as [|i]; simpl in *.
    + inversion H; subst.
      destruct (length p =? length t)%nat; reflexivity.
    + destruct (length p0 =? length t)%nat; simpl; now apply IH.
Qed.

(** ** Annealing of beta *)

Lemma anneal_below beta d :
  beta < 1 -> anneal_loss_param beta d = beta * (1 + d).
Proof.
  intros H. unfold anneal_loss_param.
  destruct (Rlt_dec beta 1); [reflexivity | contradiction].
Qed.

Lemma anneal_reached beta d :
  1 <= beta -> anneal_loss_param beta d = beta.
Proof.
  intros H. unfold anneal_loss_param.
  destruct (Rlt_dec beta 1); lra.
Qed.

Lemma anneal_bound beta d :
  0 <= d -> beta <= 1 + d -> anneal_loss_param beta d <= 1 + d.
Proof.
  intros Hd Hb. unfold anneal_loss_param.
  destruct (Rlt_dec beta 1); nra.
Qed.

(** ** Importance-sampling weights *)

Lemma is_weights_normalised N ps beta :
  ps <> [] ->
  exists m,
    list_max (map (fun p => Rpower (INR N * p) (- beta)) ps) = Some m /\
    0 < m /\
    is_weights N ps beta
    = Ok (map (fun p => Rpower (INR N * p) (- beta) / m) ps) /\
    list_max (map (fun p => Rpower (INR N * p) (- beta) / m) ps) = Some 1 /\
    Forall (fun x => x <= 1)
           (map (fun p => Rpower (INR N * p) (- beta) / m) ps).
Proof.
  intros Hne.
  destruct (list_max_nonempty (map (fun p => Rpower (INR N * p) (- beta)) ps))
    as [m Hm].
  { destruct ps; [congruence | discriminate]. }
  assert (Hpos : 0 < m).
  { apply list_max_in in Hm. apply in_map_iff in Hm.
    destruct Hm as [p [<- _]]. unfold Rpower. apply exp_pos. }
  assert (Hmax : list_max (map (fun p => Rpower (INR N * p) (- beta) / m) ps)
                 = Some 1).
  { pose proof (list_max_scale m _ m Hpos Hm) as H.
    rewrite map_map in H. rewrite H. f_equal. field. lra. }
  exists m. repeat split; auto.
  - unfold is_weights, tensor_max. rewrite Hm. simpl.
    now rewrite map_map.
  - now apply list_max_ge.
Qed.

(** ** The bootstrap target *)

Lemma bootstrap_target_elementwise gamma0 n rs ds qs :
  length rs = length ds ->
  length ds = length qs ->
  exists tgt,
    bootstrap_target gamma0 n rs ds qs = Ok tgt /\
    length tgt = length rs /\
    forall i r d q,
      nth_error rs i = Some r ->
      nth_error ds i = Some d ->
      nth_error qs i = Some q ->
      nth_error tgt i = Some (r + (1 - b2r d) * gamma0 ^ n * q).
Proof.
  intros H1 H2. unfold bootstrap_target.
  rewrite broadcast2_same_length by (rewrite !length_map; exact H2).
  simpl.
  rewrite broadcast2_same_length
    by (rewrite length_map2; rewrite !length_map; congruence).
  eexists. split; [reflexivity|]. split.
  - rewrite length_map2; [reflexivity|].
    rewrite length_map2; rewrite !length_map; congruence.
  - intros i r d q Hr Hd Hq.
    apply nth_error_map2; [exact Hr|].
    apply nth_error_map2; [|exact Hq].
    rewrite map_map.
    exact (map_nth_error (fun x => (1 - b2r x) * gamma0 ^ n) _ _ Hd).
Qed.

(** ** The priorities fed back *)

Lemma priority_feedback_elementwise qs ts :
  length qs = length ts ->
  exists written,
    priority_feedback qs ts = Ok written /\
    length written = length qs /\
    forall i q t,
      nth_error qs i = Some q ->
      nth_error ts i = Some t ->
      nth_error written i = Some ((q - t) ^ 2).
Proof.
  intros H. unfold priority_feedback, mse_loss_none.
  rewrite broadcast2_same_length by exact H. simpl.
  eexists. split; [reflexivity|]. split.
  - now rewrite length_map, length_map2.
  - intros i q t Hq Ht.
    rewrite (map_nth_error _ _ _ (nth_error_map2 _ _ _ _ _ _ Hq Ht)).
    f_equal. apply Rabs_right. apply Rle_ge. apply pow2_ge_0.
Qed.

(** ** The agent's methods *)

Section AgentTheory.

Variable Obs : Type.
Variable forward : Params -> Obs -> list R.
Variable backward : (Params -> R) -> Params -> Params.
Variable OptState : Type.
Variable optimizer_step : OptState -> Params -> Params -> OptState * Params.
Variable Store : Type.
Variable Coins : Type.
Variable mem_size : Store -> nat.
Variable mem_update : Store -> Transition Obs -> Store.
Variable mem_sample : Store -> nat -> Coins -> result (Batch Obs).
Variable mem_update_priority : Store -> list nat -> list R -> Store.

Local Abbreviation Agent := (DQNAgent Obs OptState Store).
Local Abbreviation train_epoch1 :=
  (train_epoch forward backward optimizer_step
               mem_size mem_sample mem_update_priority).
Local Abbreviation train1 :=
  (train forward backward optimizer_step
         mem_size mem_sample mem_update_priority).
Local Abbreviation after_training1 :=
  (after_training forward backward optimizer_step
                  mem_size mem_sample mem_update_priority).

Ltac unfold_setters :=
  unfold set_loss_param, set_memory, set_n_step_buffer, set_epsilon,
    set_dqn, set_target_dqn, set_optimizer in *.

Ltac unfold_monad :=
  unfold bind, get, lift, modify, ret in *.

(** What one successful pass through the loop body computes. *)
Lemma train_epoch_inv coins (a : Agent) l a' :
  train_epoch1 coins a = (Ok l, a') <->
  exists b curr_q max_next_q target w loss weighted opt theta target',
    mem_sample (memory a) (batch_size a) coins = Ok b /\
    gather (map (forward (dqn a)) (b_states b)) (b_actions b) = Ok curr_q /\
    mapM tensor_max (map (forward (target_dqn a)) (b_next_states b))
    = Ok max_next_q /\
    bootstrap_target (gamma a) (n_step a) (b_rewards b) (b_dones b) max_next_q
    = Ok target /\
    is_weights (mem_size (memory a)) (b_priorities b) (loss_param a) = Ok w /\
    mse_loss_none curr_q target = Ok loss /\
    broadcast2 Rmult loss w = Ok weighted /\
    l = mean weighted /\
    optimizer_step (optimizer a) (dqn a)
      (map (map (clamp (-100) 100))
           (backward (loss_fn forward b target w) (dqn a)))
    = (opt, theta) /\
    soft_update_loop (tau a) (target_dqn a) theta = (Ok tt, target') /\
    a' = mkAgent (batch_size a) (alpha a)
                 (anneal_loss_param (loss_param a) (loss_param_decay a))
                 (loss_param_decay a) (gamma a) (tau a) (n_step a)
                 (mem_update_priority (memory a) (b_indexes b)
                                      (map Rabs loss))
                 (n_step_buffer a) (epsilon a) (epsilon_decay a)
                 (min_epsilon a) theta target' opt.
Proof.
  unfold train_epoch, update_target. unfold_monad. split.
  - destruct (mem_sample _ _ _) as [b|] eqn:Hs; [|discriminate].
    destruct (gather _ _) as [curr_q|] eqn:Hg; [|discriminate].
    destruct (mapM _ _) as [max_next_q|] eqn:Hm; [|discriminate].
    destruct (bootstrap_target _ _ _ _ _) as [target|] eqn:Hb; [|discriminate].
    destruct (is_weights _ _ _) as [w|] eqn:Hw; [|discriminate].
    destruct (mse_loss_none _ _) as [loss|] eqn:Hl; [|discriminate].
    destruct (broadcast2 _ _ _) as [weighted|] eqn:Hx; [|discriminate].
    unfold_setters. simpl.
    destruct (optimizer_step _ _ _) as [opt theta] eqn:Ho. simpl.
    destruct (soft_update_loop _ _ _) as [r target'] eqn:Hu.
    destruct r as [[]|e]; intros H; inversion H; subst.
    exists b, curr_q, max_next_q, target, w, loss, weighted, opt, theta,
      target'.
    repeat split; auto.
  - intros (b & curr_q & max_next_q & target & w & loss & weighted & opt
            & theta & target' & Hs & Hg & Hm & Hb & Hw & Hl & Hx & -> & Ho
            & Hu & ->).
    rewrite Hs, Hg, Hm, Hb, Hw, Hl, Hx.
    unfold_setters. simpl. rewrite Ho. simpl. rewrite Hu. reflexivity.
Qed.

(** Whatever a pass does, also when it raises half-way, beta is either
    untouched or annealed once, and its growth rate stays. *)
Lemma train_epoch_loss_param coins (a : Agent) r a' :
  train_epoch1 coins a = (r, a') ->
  loss_param_decay a' = loss_param_decay a /\
  (loss_param a' = loss_param a \/
   loss_param a' = anneal_loss_param (loss_param a) (loss_param_decay a)).
Proof.
  unfold train_epoch, update_target. unfold_monad.
  destruct (mem_sample _ _ _) as [b|];
    [|intros H; inversion H; subst; auto].
  destruct (gather _ _) as [curr_q|];
    [|intros H; inversion H; subst; auto].
  destruct (mapM _ _) as [max_next_q|];
    [|intros H; inversion H; subst; auto].
  destruct (bootstrap_target _ _ _ _ _) as [target|];
    [|intros H; inversion H; subst; auto].
  destruct (is_weights _ _ _) as [w|];
    [|intros H; inversion H; subst; auto].
  destruct (mse_loss_none _ _) as [loss|];
    [|intros H; inversion H; subst; simpl; auto].
  destruct (broadcast2 _ _ _) as [weighted|];
    [|intros H; inversion H; subst; simpl; auto].
  unfold_setters. simpl.
  destruct (optimizer_step _ _ _) as [opt theta]. simpl.
  destruct (soft_update_loop _ _ _) as [r0 target'].
  destruct r0 as [[]|e]; intros H; inversion H; subst; simpl; auto.
Qed.

(** The loop of [train] returns from its first pass. *)
Lemma train_ready epochs coins (a : Agent) :
  (batch_size a <= mem_size (memory a))%nat ->
  train1 (S epochs) coins a
  = match train_epoch1 (coins 0%nat) a with
    | (Ok l, a') => (Ok (Float l), a')
    | (Raise e, a') => (Raise e, a')
    end.
Proof.
  intros Hready. unfold train. unfold_monad.
  destruct (Nat.ltb_spec (mem_size (memory a)) (batch_size a)); [lia|].
  simpl. unfold_monad.
  destruct (train_epoch1 (coins 0%nat) a) as [[l|e] a']; reflexivity.
Qed.

Lemma train_not_ready epochs coins (a : Agent) :
  (mem_size (memory a) < batch_size a)%nat ->
  train1 epochs coins a = (Ok NegInf, a).
Proof.
  intros Hlt. unfold train. unfold_monad.
  destruct (Nat.ltb_spec (mem_size (memory a)) (batch_size a)); [|lia].
  reflexivity.
Qed.

Lemma train_zero_epochs coins (a : Agent) :
  (batch_size a <= mem_size (memory a))%nat ->
  train1 0 coins a = (Ok PyNone, a).
Proof.
  intros Hready. unfold train. unfold_monad.
  destruct (Nat.ltb_spec (mem_size (memory a)) (batch_size a)); [lia|].
  reflexivity.
Qed.

Lemma train_loss_param epochs coins (a : Agent) r a' :
  train1 epochs coins a = (r, a') ->
  loss_param_decay a' = loss_param_decay a /\
  (loss_param a' = loss_param a \/
   loss_param a' = anneal_loss_param (loss_param a) (loss_param_decay a)).
Proof.
  destruct (Nat.ltb_spec (mem_size (memory a)) (batch_size a)) as [Hlt|Hge].
  - rewrite train_not_ready by exact Hlt.
    intros H; inversion H; subst; auto.
  - destruct epochs as [|epochs].
    + rewrite train_zero_epochs by exact Hge.
      intros H; inversion H; subst; auto.
    + rewrite train_ready by exact Hge.
      destruct (train_epoch1 (coins 0%nat) a) as [[l|e] a1] eqn:E;
        intros H; inversion H; subst;
        exact (train_epoch_loss_param _ _ _ _ E).
Qed.

(** [__init__] hands the same [gamma] and [n_step] to the agent and to
    its accumulator, and starts with an empty window. *)
Lemma init_shares_n_step batch_size0 n_step0 alpha0 beta beta_decay gamma0
    tau0 epsilon_init epsilon_decay0 min_epsilon0
    (memory0 : Store) net_online net_target (opt0 : OptState) (a : Agent) :
  init batch_size0 n_step0 alpha0 beta beta_decay gamma0 tau0
       epsilon_init epsilon_decay0 min_epsilon0
       memory0 net_online net_target opt0 = Ok a ->
  n_step a = n_step0 /\ gamma a = gamma0 /\
  n_step_buffer a = NStep.empty gamma0 n_step0 /\
  epsilon a = epsilon_init /\ loss_param a = beta.
Proof.
  unfold init. destruct (init_copy_loop _ _); simpl; [|discriminate].
  intros H; inversion H; subst; simpl. auto.
Qed.

Lemma final_loss_of_pass (a : Agent) b curr_q target w loss weighted :
  gather (map (forward (dqn a)) (b_states b)) (b_actions b) = Ok curr_q ->
  mse_loss_none curr_q target = Ok loss ->
  broadcast2 Rmult loss w = Ok weighted ->
  final_loss forward (dqn a) b target w = Ok (mean weighted).
Proof.
  intros Hg Hl Hx. unfold final_loss, per_sample_loss.
  rewrite Hg. simpl. rewrite Hl. simpl. now rewrite Hx.
Qed.

Lemma gather_length rows index q :
  gather rows index = Ok q -> length q = length index.
Proof.
  unfold gather.
  destruct (Nat.leb_spec (length index) (length rows)) as [Hle|];
    [|discriminate].
  intros Hq. apply mapM_length in Hq. rewrite Hq, length_combine. lia.
Qed.

Lemma is_weights_length N ps beta w :
  is_weights N ps beta = Ok w -> length w = length ps.
Proof.
  unfold is_weights, tensor_max.
  destruct (list_max _); simpl; [|discriminate].
  intros H; inversion H. now rewrite !length_map.
Qed.

(** A pass that returns a loss, on a batch whose arrays have one length:
    nothing is broadcast, so the per-sample loss and its weighting are
    elementwise. *)
Lemma pass_elementwise coins (a : Agent) l a' b :
  train_epoch1 coins a = (Ok l, a') ->
  mem_sample (memory a) (batch_size a) coins = Ok b ->
  length (b_actions b) = length (b_rewards b) ->
  length (b_rewards b) = length (b_dones b) ->
  length (b_dones b) = length (b_next_states b) ->
  length (b_next_states b) = length (b_priorities b) ->
  exists curr_q target w,
    gather (map (forward (dqn a)) (b_states b)) (b_actions b) = Ok curr_q /\
    is_weights (mem_size (memory a)) (b_priorities b) (loss_param a) = Ok w /\
    length curr_q = length (b_rewards b) /\
    length target = length (b_rewards b) /\
    length w = length (b_rewards b) /\
    (forall i r d s',
       nth_error (b_rewards b) i = Some r ->
       nth_error (b_dones b) i = Some d ->
       nth_error (b_next_states b) i = Some s' ->
       exists m,
         list_max (forward (target_dqn a) s') = Some m /\
         nth_error target i
         = Some (r + (1 - b2r d) * gamma a ^ n_step a * m)) /\
    l = mean (map2 Rmult (map2 (fun q t => (q - t) ^ 2) curr_q target) w) /\
    memory a'
    = mem_update_priority
        (memory a) (b_indexes b)
        (map Rabs (map2 (fun q t => (q - t) ^ 2) curr_q target)) /\
    optimizer_step (optimizer a) (dqn a)
      (map (map (clamp (-100) 100))
           (backward (loss_fn forward b target w) (dqn a)))
    = (optimizer a', dqn a') /\
    final_loss forward (dqn a) b target w = Ok l.
Proof.
  intros H Hs' Har Hrd Hdn Hnp. apply train_epoch_inv in H.
  destruct H as (b0 & curr_q & max_next_q & target & w & loss & weighted
                 & opt & theta & target' & Hs & Hg & Hm & Hb & Hw & Hl & Hx
                 & -> & Ho & Hu & ->).
  rewrite Hs' in Hs. inversion Hs; subst b0.
  assert (Lq : length curr_q = length (b_rewards b)).
  { rewrite (gather_length _ _ _ Hg). exact Har. }
  assert (Lm : length max_next_q = length (b_next_states b)).
  { apply mapM_length in Hm. now rewrite length_map in Hm. }
  destruct (bootstrap_target_elementwise (gamma a) (n_step a)
              (b_rewards b) (b_dones b) max_next_q)
    as (tgt & Htgt & Lt & Hel); try congruence.
  rewrite Hb in Htgt. inversion Htgt; subst tgt.
  assert (Lw : length w = length (b_rewards b)).
  { rewrite (is_weights_length _ _ _ _ Hw). congruence. }
  assert (Hloss : loss = map2 (fun q t => (q - t) ^ 2) curr_q target).
  { unfold mse_loss_none in Hl.
    rewrite broadcast2_same_length in Hl by congruence.
    now inversion Hl. }
  assert (Hweighted : weighted = map2 Rmult loss w).
  { rewrite broadcast2_same_length in Hx.
    - now inversion Hx.
    - rewrite Hloss, length_map2; congruence. }
  exists curr_q, target, w.
  split; [exact Hg|]. split; [exact Hw|].
  split; [exact Lq|]. split; [exact Lt|]. split; [exact Lw|].
  split.
  { intros i r d s' Hr Hd Hn.
    destruct (mapM_nth_error _ _ _ i (forward (target_dqn a) s') Hm)
      as [m [Hmax Hnth]].
    { exact (map_nth_error (forward (target_dqn a)) _ _ Hn). }
    unfold tensor_max in Hmax.
    destruct (list_max (forward (target_dqn a) s')) as [m'|] eqn:E;
      [|discriminate].
    inversion Hmax; subst m'.
    exists m. split; [reflexivity|]. now apply Hel. }
  split; [now rewrite Hweighted, Hloss|].
  split; [simpl; now rewrite Hloss|].
  split; [exact Ho|].
  exact (final_loss_of_pass _ _ _ _ _ _ _ Hg Hl Hx).
Qed.

(** C4.  When the store holds fewer transitions than [batch_size], a call
    of [train], with any number of epochs, returns [-inf] without raising
    and hands back the agent as it was: networks, store, epsilon and beta
    are all untouched. *)
Theorem train_not_ready_returns_neg_inf epochs coins (a : Agent) :
  (mem_size (memory a) < batch_size a)%nat ->
  train1 epochs coins a = (Ok NegInf, a).
Proof.
  apply train_not_ready.
Qed.

(** C9.  A call [train(epochs=k)] with [k >= 1] that passes the readiness
    check runs the loop body once, whatever [k] is: it behaves as
    [train(epochs=1)], its result and final state are those of one pass,
    and when it returns the optimizer has made one step from the old
    parameters and the target network one soft update towards the new
    ones. *)
Theorem train_runs_one_pass k coins (a : Agent) :
  (1 <= k)%nat ->
  (batch_size a <= mem_size (memory a))%nat ->
  train1 k coins a = train1 1 coins a /\
  train1 k coins a
  = match train_epoch1 (coins 0%nat) a with
    | (Ok l, a') => (Ok (Float l), a')
    | (Raise e, a') => (Raise e, a')
    end /\
  forall v a',
    train1 k coins a = (Ok v, a') ->
    exists l grads,
      v = Float l /\
      train_epoch1 (coins 0%nat) a = (Ok l, a') /\
      optimizer_step (optimizer a) (dqn a) grads = (optimizer a', dqn a') /\
      soft_update_loop (tau a) (target_dqn a) (dqn a')
      = (Ok tt, target_dqn a').
Proof.
  intros Hk Hready.
  destruct k as [|k]; [lia|].
  rewrite !train_ready by exact Hready.
  repeat split.
  intros v a' H.
  destruct (train_epoch1 (coins 0%nat) a) as [[l|e] a1] eqn:E;
    inversion H; subst.
  apply train_epoch_inv in E.
  destruct E as (b & curr_q & max_next_q & target & w & loss & weighted
                 & opt & theta & target' & _ & _ & _ & _ & _ & _ & _ & _
                 & Ho & Hu & ->).
  simpl. eexists _, _. repeat split; eauto.
Qed.

(** C3.  In a pass of [train] that returns a loss, on a batch whose
    arrays have one length (and whose priorities are positive, as the
    floor of the store makes them), the target is, for every sample [i],
    [r_i + (1 - done_i) * gamma^n_step * m_i], where [done_i] counts as 1
    or 0 and [m_i] is the largest action value the target network gives
    for [next_state_i]: an entry of its output that no entry exceeds.
    This target is the one the returned loss is computed against, the
    mean of [w_i * (Q(s_i,a_i) - target_i)^2], and it is a constant of the
    function that is differentiated (no gradient flows through the target
    network).  [gamma] and [n_step] are the agent's fields, which the pass
    leaves as they are, as it does the accumulator created with them. *)
Theorem train_bootstrap_target coins (a : Agent) l a' b :
  train_epoch1 coins a = (Ok l, a') ->
  mem_sample (memory a) (batch_size a) coins = Ok b ->
  length (b_actions b) = length (b_rewards b) ->
  length (b_rewards b) = length (b_dones b) ->
  length (b_dones b) = length (b_next_states b) ->
  length (b_next_states b) = length (b_priorities b) ->
  Forall (fun p => 0 < INR (mem_size (memory a)) * p) (b_priorities b) ->
  exists curr_q target w weighted,
    gather (map (forward (dqn a)) (b_states b)) (b_actions b) = Ok curr_q /\
    is_weights (mem_size (memory a)) (b_priorities b) (loss_param a) = Ok w /\
    length target = length (b_rewards b) /\
    (forall i r d s',
       nth_error (b_rewards b) i = Some r ->
       nth_error (b_dones b) i = Some d ->
       nth_error (b_next_states b) i = Some s' ->
       exists m,
         In m (forward (target_dqn a) s') /\
         Forall (fun x => x <= m) (forward (target_dqn a) s') /\
         nth_error target i
         = Some (r + (1 - (if d then 1 else 0)) * gamma a ^ n_step a * m)) /\
    length weighted = length target /\
    (forall i q t wi,
       nth_error curr_q i = Some q ->
       nth_error target i = Some t ->
       nth_error w i = Some wi ->
       nth_error weighted i = Some ((q - t) ^ 2 * wi)) /\
    l = fold_right Rplus 0 weighted / INR (length weighted) /\
    optimizer_step (optimizer a) (dqn a)
      (map (map (clamp (-100) 100))
           (backward (loss_fn forward b target w) (dqn a)))
    = (optimizer a', dqn a') /\
    loss_fn forward b target w (dqn a) = l /\
    n_step a' = n_step a /\ gamma a' = gamma a /\
    n_step_buffer a' = n_step_buffer a.
Proof.
  intros H Hs Har Hrd Hdn Hnp _.
  destruct (pass_elementwise _ _ _ _ _ H Hs Har Hrd Hdn Hnp)
    as (curr_q & target & w & Hg & Hw & Lq & Lt & Lw & Hel & Hloss & _
        & Ho & Hfinal).
  exists curr_q, target, w,
    (map2 Rmult (map2 (fun q t => (q - t) ^ 2) curr_q target) w).
  split; [exact Hg|]. split; [exact Hw|]. split; [exact Lt|].
  split.
  { intros i r d s' Hr Hd Hn.
    destruct (Hel i r d s' Hr Hd Hn) as (m & Hmax & Hnth).
    exists m. split; [exact (list_max_in _ _ Hmax)|].
    split; [exact (list_max_ge _ _ Hmax)|].
    rewrite Hnth. now destruct d. }
  split.
  { rewrite !length_map2; try congruence.
    rewrite length_map2; congruence. }
  split.
  { intros i q t wi Hq Ht Hwi.
    exact (nth_error_map2 Rmult _ _ i _ _
             (nth_error_map2 (fun q t => (q - t) ^ 2) _ _ i q t Hq Ht)
             Hwi). }
  split; [exact Hloss|].
  split; [exact Ho|].
  split; [unfold loss_fn; now rewrite Hfinal|].
  apply train_epoch_inv in H.
  destruct H as (b0 & cq0 & mq0 & t0 & w0 & loss0 & wd0 & opt & theta
                 & target' & _ & _ & _ & _ & _ & _ & _ & _ & _ & _ & ->).
  simpl. auto.
Qed.

(** C5.  In a pass of [train] that returns a loss, the weights are
    [(N * p_i)^(-beta)], with [N] the size of the store and [p_i] the
    priorities [sample] returned (positive, as the store's floor makes
    them), divided by their maximum; the largest weight is exactly 1, none
    exceeds 1, and these are the weights of the returned loss. *)
Theorem train_importance_weights coins (a : Agent) l a' b :
  train_epoch1 coins a = (Ok l, a') ->
  mem_sample (memory a) (batch_size a) coins = Ok b ->
  Forall (fun p => 0 < INR (mem_size (memory a)) * p) (b_priorities b) ->
  exists m w target,
    list_max (map (fun p => Rpower (INR (mem_size (memory a)) * p)
                                   (- loss_param a))
                  (b_priorities b)) = Some m /\
    w = map (fun p => Rpower (INR (mem_size (memory a)) * p)
                             (- loss_param a) / m)
            (b_priorities b) /\
    is_weights (mem_size (memory a)) (b_priorities b) (loss_param a) = Ok w /\
    list_max w = Some 1 /\
    Forall (fun x => x <= 1) w /\
    final_loss forward (dqn a) b target w = Ok l.
Proof.
  intros H Hs' _. apply train_epoch_inv in H.
  destruct H as (b0 & curr_q & max_next_q & target & w & loss & weighted
                 & opt & theta & target' & Hs & Hg & Hm & Hb & Hw & Hl & Hx
                 & -> & Ho & Hu & ->).
  rewrite Hs' in Hs. inversion Hs; subst b0.
  assert (Hne : b_priorities b <> []).
  { intros E. rewrite E in Hw. discriminate. }
  destruct (is_weights_normalised (mem_size (memory a)) _ (loss_param a) Hne)
    as (m & Hmax & _ & Hw' & Hone & Hle).
  rewrite Hw in Hw'. inversion Hw'; subst w.
  eexists m, _, target. repeat split; eauto.
  eapply final_loss_of_pass; eauto.
Qed.

(** C2, as amended.  In a pass of [train] that returns a loss, the values
    handed to the store's [update_priority] for the sampled indices are
    the absolute values of the per-sample squared-error loss, that is
    [(Q(s,a) - target)^2] for each sample: the square of the TD-error, not
    its absolute value. *)
Theorem train_priority_feedback coins (a : Agent) l a' :
  train_epoch1 coins a = (Ok l, a') ->
  exists b curr_q max_next_q target written,
    mem_sample (memory a) (batch_size a) coins = Ok b /\
    gather (map (forward (dqn a)) (b_states b)) (b_actions b) = Ok curr_q /\
    mapM tensor_max (map (forward (target_dqn a)) (b_next_states b))
    = Ok max_next_q /\
    bootstrap_target (gamma a) (n_step a) (b_rewards b) (b_dones b) max_next_q
    = Ok target /\
    priority_feedback curr_q target = Ok written /\
    memory a' = mem_update_priority (memory a) (b_indexes b) written /\
    (length curr_q = length target ->
     forall i q t,
       nth_error curr_q i = Some q ->
       nth_error target i = Some t ->
       nth_error written i = Some ((q - t) ^ 2)).
Proof.
  intros H. apply train_epoch_inv in H.
  destruct H as (b & curr_q & max_next_q & target & w & loss & weighted
                 & opt & theta & target' & Hs & Hg & Hm & Hb & Hw & Hl & Hx
                 & -> & Ho & Hu & ->).
  exists b, curr_q, max_next_q, target, (map Rabs loss).
  repeat split; auto.
  - unfold priority_feedback. now rewrite Hl.
  - intros Hlen i q t Hq Ht.
    destruct (priority_feedback_elementwise curr_q target Hlen)
      as [written [Hp [_ Hel]]].
    unfold priority_feedback in Hp. rewrite Hl in Hp.
    inversion Hp; subst written. now apply Hel.
Qed.

(** C6, as amended.  A pass of [train] that returns multiplies beta by
    [1 + beta_decay] when beta was below 1 and leaves it alone otherwise;
    there is no clamp, so the last growth step may carry beta past 1:
    along any sequence of training calls started with [beta <= 1] (and
    [beta_decay >= 0]) beta stays at most [1 + beta_decay], and once it is
    1 or more it no longer changes. *)
Theorem loss_param_anneals :
  (forall coins (a : Agent) l a',
      train_epoch1 coins a = (Ok l, a') ->
      (loss_param a < 1 ->
       loss_param a' = loss_param a * (1 + loss_param_decay a)) /\
      (1 <= loss_param a -> loss_param a' = loss_param a)) /\
  (forall (a a' : Agent),
      after_training1 a a' ->
      0 <= loss_param_decay a ->
      loss_param a <= 1 ->
      loss_param a' <= 1 + loss_param_decay a) /\
  (forall (a a' : Agent),
      after_training1 a a' ->
      1 <= loss_param a ->
      loss_param a' = loss_param a).
Proof.
  split; [|split].
  - intros coins a l a' H.
    destruct (proj1 (train_epoch_inv _ _ _ _) H)
      as (b & curr_q & max_next_q & target & w & loss & weighted
          & opt & theta & target' & _ & _ & _ & _ & _ & _ & _ & _ & _ & _
          & ->).
    simpl. split; intros Hb.
    + now apply anneal_below.
    + now apply anneal_reached.
  - intros a a' Hreach Hd Hb.
    assert (Hinv : loss_param_decay a' = loss_param_decay a /\
                   loss_param a' <= 1 + loss_param_decay a).
    { induction Hreach as [|a1 a2 epochs coins r _ [IHd IHb] Hstep].
      - split; [reflexivity | lra].
      - destruct (train_loss_param _ _ _ _ _ Hstep) as [Hd' [Hsame|Hann]].
        + split; [congruence | rewrite Hsame; exact IHb].
        + split; [congruence|].
          rewrite Hann, IHd. apply anneal_bound; assumption. }
    apply Hinv.
  - intros a a' Hreach Hb.
    induction Hreach as [|a1 a2 epochs coins r _ IH Hstep];
      [reflexivity|].
    destruct (train_loss_param _ _ _ _ _ Hstep) as [_ [Hsame|Hann]].
    + congruence.
    + rewrite Hann, anneal_reached; lra.
Qed.

(** C7.  A call of [update_target], on networks of the same shape,
    returns without raising and leaves in the target network, at every
    position of every parameter tensor,
    [(1 - tau) * old_target + tau * online]; the shapes are kept, so
    nothing else is in the target network; the online network holds what
    it held, and so does every other field of the agent. *)
Theorem update_target_blends (a : Agent) :
  map (@length R) (target_dqn a) = map (@length R) (dqn a) ->
  fst (update_target a) = Ok tt /\
  map (@length R) (target_dqn (snd (update_target a)))
  = map (@length R) (target_dqn a) /\
  (forall i j t p x y,
      nth_error (target_dqn a) i = Some t ->
      nth_error (dqn a) i = Some p ->
      nth_error t j = Some x ->
      nth_error p j = Some y ->
      exists t',
        nth_error (target_dqn (snd (update_target a))) i = Some t' /\
        nth_error t' j = Some ((1 - tau a) * x + tau a * y)) /\
  dqn (snd (update_target a)) = dqn a /\
  optimizer (snd (update_target a)) = optimizer a /\
  memory (snd (update_target a)) = memory a /\
  n_step_buffer (snd (update_target a)) = n_step_buffer a /\
  tau (snd (update_target a)) = tau a /\
  epsilon (snd (update_target a)) = epsilon a /\
  loss_param (snd (update_target a)) = loss_param a.
Proof.
  intros Hshape. unfold update_target.
  rewrite (soft_update_loop_ok _ _ _ Hshape). cbn [fst snd].
  unfold_setters. cbn [target_dqn dqn optimizer memory n_step_buffer tau
                       epsilon loss_param].
  split; [reflexivity|]. split; [|split; [|repeat split]].
  - revert Hshape. generalize (dqn a) as online. generalize (target_dqn a) as ts.
    induction ts as [|t ts IH]; intros [|p ps] H; simpl in *;
      try discriminate; auto.
    inversion H as [[Hl Hrest]]. f_equal; [|now apply IH].
    now apply length_map2.
  - intros i j t p x y Ht Hp Hx Hy.
    eexists. split.
    + apply nth_error_map2; eassumption.
    + rewrite (nth_error_map2 _ _ _ _ _ _ Hx Hy). f_equal. ring.
Qed.

(** C8, as amended.  Every call of [act], also with [evaluate=True], sets
    epsilon to [max(epsilon * epsilon_decay, min_epsilon)], so that
    afterwards [epsilon >= min_epsilon]; epsilon does not increase
    provided that before the call [0 <= epsilon],
    [epsilon_decay <= 1] and [min_epsilon <= epsilon]; and with
    [evaluate=True] the call returns the argmax of the online network's
    output, a position holding a maximal action value. *)
Theorem act_decays_epsilon state evaluate u sampled (a : Agent) :
  let r := fst (act forward state evaluate u sampled a) in
  let a' := snd (act forward state evaluate u sampled a) in
  epsilon a' = Rmax (epsilon a * epsilon_decay a) (min_epsilon a) /\
  min_epsilon a <= epsilon a' /\
  (0 <= epsilon a -> epsilon_decay a <= 1 -> min_epsilon a <= epsilon a ->
   epsilon a' <= epsilon a) /\
  (evaluate = true ->
   r = argmax (forward (dqn a) state) /\
   forall k, r = Ok k ->
     exists v, nth_error (forward (dqn a) state) k = Some v /\
               Forall (fun x => x <= v) (forward (dqn a) state)) /\
  min_epsilon a' = min_epsilon a /\
  epsilon_decay a' = epsilon_decay a /\
  dqn a' = dqn a.
Proof.
  unfold act. unfold_monad. unfold_setters. simpl.
  assert (Hmono :
    0 <= epsilon a -> epsilon_decay a <= 1 -> min_epsilon a <= epsilon a ->
    Rmax (epsilon a * epsilon_decay a) (min_epsilon a) <= epsilon a).
  { intros H0 H1 H2. apply Rmax_lub; nra. }
  assert (Hmax :
    forall k, argmax (forward (dqn a) state) = Ok k ->
      exists v, nth_error (forward (dqn a) state) k = Some v /\
                Forall (fun x => x <= v) (forward (dqn a) state)).
  { intros k Hk. destruct (argmax_spec _ _ Hk) as [v [Hv [Hall _]]]. eauto. }
  destruct (Rlt_dec u _); destruct evaluate; simpl;
    repeat split; auto using Rmax_r; try discriminate.
Qed.

(** C10.  After a successful [load_model] both networks hold the state
    dict stored at the path, hence the same parameters; the call succeeds
    whenever the file holds a state dict of the networks' shape.  After
    construction, the two networks (built with the same shape) hold the
    same parameters as well. *)
Theorem networks_agree_after_load_and_init :
  (forall fs path (a a' : Agent),
      load_model fs path a = (Ok tt, a') ->
      exists sd, fs path = Some sd /\ dqn a' = sd /\ target_dqn a' = dqn a') /\
  (forall fs path (a : Agent) sd,
      fs path = Some sd ->
      map (@length R) (dqn a) = map (@length R) sd ->
      map (@length R) (target_dqn a) = map (@length R) sd ->
      exists a', load_model fs path a = (Ok tt, a') /\
                 dqn a' = sd /\ target_dqn a' = dqn a') /\
  (forall batch_size0 n_step0 alpha0 beta beta_decay gamma0 tau0
          epsilon_init epsilon_decay0 min_epsilon0
          (memory0 : Store) net_online net_target (opt0 : OptState),
      map (@length R) net_online = map (@length R) net_target ->
      exists a : Agent,
        init batch_size0 n_step0 alpha0 beta beta_decay gamma0 tau0
             epsilon_init epsilon_decay0 min_epsilon0
             memory0 net_online net_target opt0 = Ok a /\
        dqn a = target_dqn a).
Proof.
  split; [|split].
  - intros fs path a a'. unfold load_model, torch_load.
    unfold_monad. unfold_setters.
    destruct (fs path) as [sd|]; [|discriminate].
    destruct (load_state_dict (dqn a) sd) as [[[]|e1] online] eqn:E1;
      [|discriminate].
    cbn [target_dqn].
    destruct (load_state_dict (target_dqn a) sd) as [r2 target] eqn:E2.
    intros H; inversion H; subst. simpl.
    destruct (load_state_dict_ok_inv _ _ _ E1) as [-> _].
    destruct (load_state_dict_ok_inv _ _ _ E2) as [-> _].
    eauto.
  - intros fs path a sd Hfs H1 H2.
    unfold load_model, torch_load.
    unfold_monad. unfold_setters. rewrite Hfs.
    rewrite (load_state_dict_ok _ _ H1). cbn [target_dqn].
    rewrite (load_state_dict_ok _ _ H2).
    eexists. split; [reflexivity|]. simpl. auto.
  - intros bs ns al be bd ga ta ei ed me memory0 net_online net_target opt0 H.
    assert (Hcopy : init_copy_loop net_online net_target = Ok net_target).
    { revert net_target H.
      induction net_online as [|t ts IH]; intros [|p ps] H; simpl in *;
        try discriminate; auto.
      inversion H as [[Hl Hrest]].
      unfold copy_. rewrite Hl, Nat.eqb_refl. simpl.
      now rewrite (IH ps Hrest). }
    unfold init. rewrite Hcopy. simpl. eexists. split; reflexivity.
Qed.

(** ** The accumulator and [remember] *)












End AgentTheory.

(** ** The properties on the small instance *)

Lemma demo_size_store2 : Replay.size Demo.store2 = 2%nat.
Proof. reflexivity. Qed.

(** A pass of [train] on a ready agent goes through. *)
Lemma demo_pass_succeeds beta epsilon0 :
  exists l a',
    Demo.train_epoch (Demo.coins0 0%nat)
                     (Demo.agent0 2 Demo.store2 beta epsilon0)
    = (Ok l, a').
Proof.
  eexists. eexists. unfold Demo.train_epoch.
  apply train_epoch_inv.
  do 10 eexists.
  repeat (split; [reflexivity|]). reflexivity.
Qed.

Lemma train_not_ready_witness :
  (Replay.size (memory Demo.not_ready) < batch_size Demo.not_ready)%nat /\
  Demo.train 3 Demo.coins0 Demo.not_ready = (Ok NegInf, Demo.not_ready).
Proof.
  assert (H : (Replay.size (memory Demo.not_ready)
               < batch_size Demo.not_ready)%nat).
  { simpl. rewrite demo_size_store2. lia. }
  split; [exact H|].
  exact (train_not_ready_returns_neg_inf
           _ Demo.forward Demo.backward _ Demo.optimizer_step _ _
           Replay.size Replay.sample Replay.update_priority
           3%nat Demo.coins0 Demo.not_ready H).
Defined.

Lemma train_runs_one_pass_witness :
  (1 <= 3)%nat /\
  (batch_size Demo.ready <= Replay.size (memory Demo.ready))%nat /\
  Demo.train 3 Demo.coins0 Demo.ready = Demo.train 1 Demo.coins0 Demo.ready.
Proof.
  assert (H : (batch_size Demo.ready <= Replay.size (memory Demo.ready))%nat).
  { simpl. rewrite demo_size_store2. lia. }
  split; [lia|]. split; [exact H|].
  exact (proj1 (train_runs_one_pass
                  _ Demo.forward Demo.backward _ Demo.optimizer_step _ _
                  Replay.size Replay.sample Replay.update_priority
                  3%nat Demo.coins0 Demo.ready ltac:(lia) H)).
Defined.

Lemma demo_sample_ready :
  exists b,
    Replay.sample (memory Demo.ready) (batch_size Demo.ready)
                  (Demo.coins0 0%nat) = Ok b /\
    b_rewards b = [1; 2] /\
    b_dones b = [false; true] /\
    b_next_states b = [[0; 1]; [1; 1]] /\
    b_indexes b = [0%nat; 1%nat] /\
    Forall (fun p => 0 < INR (Replay.size (memory Demo.ready)) * p)
           (b_priorities b).
Proof.
  eexists. split; [reflexivity|].
  repeat (split; [reflexivity|]).
  simpl.
  set (x := Rpower 1 (6 / 10)).
  assert (Hx : 0 < x) by (unfold x, Rpower; apply exp_pos).
  assert (Hp : 0 < (1 + 1) * (x / (x + (x + 0)))).
  { apply Rmult_lt_0_compat; [lra|].
    apply Rdiv_lt_0_compat; lra. }
  repeat constructor; exact Hp.
Qed.

Lemma demo_batch_ready :
  exists b,
    Replay.sample (memory Demo.ready) (batch_size Demo.ready)
                  (Demo.coins0 0%nat) = Ok b /\
    b_actions b = [0%nat; 1%nat] /\
    b_rewards b = [1; 2] /\
    b_dones b = [false; true] /\
    b_next_states b = [[0; 1]; [1; 1]] /\
    length (b_priorities b) = 2%nat /\
    Forall (fun p => 0 < INR (Replay.size (memory Demo.ready)) * p)
           (b_priorities b).
Proof.
  destruct demo_sample_ready as (b & Hs & Hr & Hd & Hn & _ & Hpos).
  exists b. split; [exact Hs|].
  inversion Hs; subst b. repeat split; auto.
Qed.

Lemma train_bootstrap_target_witness :
  exists l a' b target m,
    Demo.train_epoch (Demo.coins0 0%nat) Demo.ready = (Ok l, a') /\
    Replay.sample (memory Demo.ready) (batch_size Demo.ready)
                  (Demo.coins0 0%nat) = Ok b /\
    length (b_actions b) = length (b_rewards b) /\
    length (b_rewards b) = length (b_dones b) /\
    length (b_dones b) = length (b_next_states b) /\
    length (b_next_states b) = length (b_priorities b) /\
    Forall (fun p => 0 < INR (Replay.size (memory Demo.ready)) * p)
           (b_priorities b) /\
    In m (Demo.forward (target_dqn Demo.ready) [0; 1]) /\
    Forall (fun x => x <= m) (Demo.forward (target_dqn Demo.ready) [0; 1]) /\
    nth_error target 0
    = Some (1 + (1 - 0) * gamma Demo.ready ^ n_step Demo.ready * m).
Proof.
  destruct (demo_pass_succeeds (4/10) (5/10)) as (l & a' & H).
  destruct demo_batch_ready as (b & Hs & Ea & Er & Ed & En & Lp & Hpos).
  assert (L1 : length (b_actions b) = length (b_rewards b))
    by (rewrite Ea, Er; reflexivity).
  assert (L2 : length (b_rewards b) = length (b_dones b))
    by (rewrite Er, Ed; reflexivity).
  assert (L3 : length (b_dones b) = length (b_next_states b))
    by (rewrite Ed, En; reflexivity).
  assert (L4 : length (b_next_states b) = length (b_priorities b))
    by (rewrite En, Lp; reflexivity).
  destruct (train_bootstrap_target
              _ Demo.forward Demo.backward _ Demo.optimizer_step _ _
              Replay.size Replay.sample Replay.update_priority
              (Demo.coins0 0%nat) Demo.ready l a' b H Hs L1 L2 L3 L4 Hpos)
    as (curr_q & target & w & weighted & _ & _ & _ & Hel & _).
  destruct (Hel 0%nat 1 false [0; 1]
                ltac:(rewrite Er; reflexivity)
                ltac:(rewrite Ed; reflexivity)
                ltac:(rewrite En; reflexivity))
    as (m & Hin & Hall & Hnth).
  exists l, a', b, target, m. repeat split; assumption.
Defined.

Lemma train_importance_weights_witness :
  exists l a' b w,
    Demo.train_epoch (Demo.coins0 0%nat) Demo.ready = (Ok l, a') /\
    Replay.sample (memory Demo.ready) (batch_size Demo.ready)
                  (Demo.coins0 0%nat) = Ok b /\
    Forall (fun p => 0 < INR (Replay.size (memory Demo.ready)) * p)
           (b_priorities b) /\
    is_weights (Replay.size (memory Demo.ready)) (b_priorities b)
               (loss_param Demo.ready) = Ok w /\
    list_max w = Some 1.
Proof.
  destruct (demo_pass_succeeds (4/10) (5/10)) as (l & a' & H).
  destruct demo_sample_ready as (b & Hs & _ & _ & _ & _ & Hpos).
  destruct (train_importance_weights
              _ Demo.forward Demo.backward _ Demo.optimizer_step _ _
              Replay.size Replay.sample Replay.update_priority
              (Demo.coins0 0%nat) Demo.ready l a' b H Hs Hpos)
    as (m & w & target & _ & _ & Hw & Hone & _).
  exists l, a', b, w. auto.
Defined.

Lemma train_priority_feedback_witness :
  exists l a' written,
    Demo.train_epoch (Demo.coins0 0%nat) Demo.ready = (Ok l, a') /\
    memory a'
    = Replay.update_priority (memory Demo.ready) [0%nat; 1%nat] written.
Proof.
  destruct (demo_pass_succeeds (4/10) (5/10)) as (l & a' & H).
  destruct (train_priority_feedback
              _ Demo.forward Demo.backward _ Demo.optimizer_step _ _
              Replay.size Replay.sample Replay.update_priority
              (Demo.coins0 0%nat) Demo.ready l a' H)
    as (b & curr_q & mq & target & written & Hs & _ & _ & _ & _ & Hmem & _).
  destruct demo_sample_ready as (b0 & E0 & _ & _ & _ & Ei & _).
  pose proof (eq_trans (eq_sym Hs) E0) as Heq. inversion Heq; subst b0.
  rewrite Ei in Hmem.
  exists l, a', written. auto.
Defined.

(** C2, counterexample.  With [Q(s,a) = 3] and a target of 1 the value
    handed to [update_priority] is 4, the squared error, and not the
    absolute TD-error 2. *)
Lemma priority_feedback_is_not_abs_td_error :
  priority_feedback [3] [1] = Ok [4] /\
  priority_feedback [3] [1] <> Ok [Rabs (3 - 1)].
Proof.
  assert (H : priority_feedback [3] [1] = Ok [4]).
  { unfold priority_feedback, mse_loss_none, broadcast2. simpl.
    do 2 f_equal. rewrite Rabs_right; lra. }
  split; [exact H|].
  rewrite H. intros E. inversion E as [E1].
  rewrite Rabs_right in E1; lra.
Qed.

Lemma loss_param_anneals_witness :
  (0 <= loss_param_decay Demo.ready /\
   loss_param Demo.ready <= 1 /\
   loss_param (snd (Demo.train 1 Demo.coins0 Demo.ready))
   <= 1 + loss_param_decay Demo.ready) /\
  (1 <= loss_param Demo.annealed /\
   loss_param (snd (Demo.train 1 Demo.coins0 Demo.annealed))
   = loss_param Demo.annealed) /\
  (exists l a',
      Demo.train_epoch (Demo.coins0 0%nat) Demo.ready = (Ok l, a') /\
      loss_param Demo.ready < 1 /\
      loss_param a'
      = loss_param Demo.ready * (1 + loss_param_decay Demo.ready)).
Proof.
  assert (Hd : 0 <= loss_param_decay Demo.ready) by (simpl; lra).
  assert (Hb : loss_param Demo.ready <= 1) by (simpl; lra).
  assert (Hlt : loss_param Demo.ready < 1) by (simpl; lra).
  assert (Hge : 1 <= loss_param Demo.annealed) by (simpl; lra).
  destruct (loss_param_anneals
              _ Demo.forward Demo.backward _ Demo.optimizer_step _ _
              Replay.size Replay.sample Replay.update_priority)
    as (Hstep & Hbound & Hstay).
  split; [|split].
  - split; [exact Hd|]. split; [exact Hb|].
    apply Hbound; [|exact Hd|exact Hb].
    eapply at_train; [apply at_start|].
    apply surjective_pairing.
  - split; [exact Hge|].
    apply Hstay; [|exact Hge].
    eapply at_train; [apply at_start|].
    apply surjective_pairing.
  - destruct (demo_pass_succeeds (4/10) (5/10)) as (l & a' & H).
    exists l, a'. split; [exact H|]. split; [exact Hlt|].
    exact (proj1 (Hstep _ _ _ _ H) Hlt).
Defined.

(** C6, counterexample.  A training call on an agent whose beta is
    0.99999, with the default growth rate 2e-5, returns a loss and leaves
    beta above 1. *)
Lemma loss_param_exceeds_one :
  exists l a',
    Demo.train 1 Demo.coins0 Demo.nearly_annealed = (Ok (Float l), a') /\
    loss_param Demo.nearly_annealed <= 1 /\
    1 < loss_param a'.
Proof.
  destruct (demo_pass_succeeds (99999/100000) (5/10)) as (l & a' & H).
  exists l, a'. split; [|split].
  - unfold Demo.train. rewrite train_ready.
    + fold Demo.train_epoch. unfold Demo.nearly_annealed. now rewrite H.
    + simpl. rewrite demo_size_store2. lia.
  - simpl. lra.
  - apply train_epoch_inv in H.
    destruct H as (b & curr_q & max_next_q & target & w & loss & weighted
                   & opt & theta & target' & _ & _ & _ & _ & _ & _ & _ & _
                   & _ & _ & ->).
    simpl. unfold anneal_loss_param.
    destruct (Rlt_dec _ _); lra.
Qed.

Lemma update_target_blends_witness :
  map (@length R) (target_dqn Demo.ready) = map (@length R) (dqn Demo.ready) /\
  fst (update_target Demo.ready) = Ok tt /\
  dqn (snd (update_target Demo.ready)) = dqn Demo.ready /\
  exists t',
    nth_error (target_dqn (snd (update_target Demo.ready))) 0 = Some t' /\
    nth_error t' 1 = Some ((1 - 1/100) * 2 + 1/100 * 0).
Proof.
  assert (H : map (@length R) (target_dqn Demo.ready)
              = map (@length R) (dqn Demo.ready)) by reflexivity.
  split; [exact H|].
  destruct (update_target_blends _ _ _ Demo.ready H)
    as (Hrun & _ & Hel & Hdqn & _).
  split; [exact Hrun|]. split; [exact Hdqn|].
  exact (Hel 0%nat 1%nat [0; 2] [1; 0] 2 0
             eq_refl eq_refl eq_refl eq_refl).
Defined.

Lemma act_decays_epsilon_witness :
  0 <= epsilon Demo.ready /\
  epsilon_decay Demo.ready <= 1 /\
  min_epsilon Demo.ready <= epsilon Demo.ready /\
  epsilon (snd (Demo.act [1; 0] false (1/4) 1%nat Demo.ready))
  <= epsilon Demo.ready /\
  fst (Demo.act [1; 0] true (1/4) 1%nat Demo.ready)
  = argmax (Demo.forward (dqn Demo.ready) [1; 0]).
Proof.
  assert (H0 : 0 <= epsilon Demo.ready) by (simpl; lra).
  assert (H1 : epsilon_decay Demo.ready <= 1) by (simpl; lra).
  assert (H2 : min_epsilon Demo.ready <= epsilon Demo.ready) by (simpl; lra).
  repeat (split; [assumption|]).
  split.
  - exact (proj1 (proj2 (proj2
             (act_decays_epsilon _ Demo.forward _ _ [1; 0] false (1/4) 1%nat
                                 Demo.ready)))
           H0 H1 H2).
  - exact (proj1
             (proj1 (proj2 (proj2 (proj2
                (act_decays_epsilon _ Demo.forward _ _ [1; 0] true (1/4)
                                    1%nat Demo.ready))))
              eq_refl)).
Defined.

(** C8, counterexample.  On an agent constructed with [epsilon_init=0]
    and the default [min_epsilon=0.01], a call of [act] raises epsilon
    from 0 to 0.01. *)
Lemma act_can_increase_epsilon :
  exists a,
    Demo.construct 0 = Ok a /\
    epsilon a = 0 /\
    epsilon (snd (Demo.act [1; 0] true (1/2) 0%nat a)) = 1/100 /\
    epsilon a < epsilon (snd (Demo.act [1; 0] true (1/2) 0%nat a)).
Proof.
  eexists. split; [reflexivity|].
  match goal with |- _ /\ ?P /\ _ => assert (H : P) end.
  { unfold Demo.act, act, bind, modify, get, lift, ret. simpl.
    destruct (Rlt_dec _ _); simpl;
      unfold Rmax; destruct (Rle_dec _ _); lra. }
  split; [reflexivity|]. split; [exact H|].
  rewrite H. simpl. lra.
Qed.

Lemma networks_agree_witness :
  Demo.disk Demo.checkpoint = Some Demo.theta1 /\
  (exists a',
      load_model Demo.disk Demo.checkpoint Demo.ready = (Ok tt, a') /\
      dqn a' = Demo.theta1 /\
      target_dqn a' = dqn a') /\
  map (@length R) Demo.theta0 = map (@length R) Demo.theta1 /\
  (exists a, Demo.construct (5/10) = Ok a /\ dqn a = target_dqn a).
Proof.
  assert (H : Demo.disk Demo.checkpoint = Some Demo.theta1) by reflexivity.
  assert (Hshape : map (@length R) Demo.theta0 = map (@length R) Demo.theta1)
    by reflexivity.
  destruct (networks_agree_after_load_and_init
              Demo.Obs Demo.OptState Demo.Store)
    as (_ & Hload & Hinit).
  split; [exact H|]. split; [|split; [exact Hshape|]].
  - exact (Hload Demo.disk Demo.checkpoint Demo.ready Demo.theta1 H
                 eq_refl eq_refl).
  - exact (Hinit 32%nat 3%nat (6/10) (4/10) (2/100000) (99/100) (1/100)
                 (5/10) (9995/10000) (1/100)
                 (Replay.create 1000 (6/10) (1/10000))
                 Demo.theta0 Demo.theta1 (7/10000) Hshape).
Defined.



(** * Further properties of the agent *)

Lemma broadcast2_Forall (P Q S : R -> Prop) f xs ys zs :
  (forall x y, P x -> Q y -> S (f x y)) ->
  Forall P xs -> Forall Q ys ->
  broadcast2 f xs ys = Ok zs ->
  Forall S zs.
Proof.
  intros Hf Hx Hy. unfold broadcast2.
  assert (Hmap2 : forall xs ys, Forall P xs -> Forall Q ys ->
                                Forall S (map2 f xs ys)).
  { clear xs ys Hx Hy. induction xs as [|x xs IH]; intros [|y ys] Hx Hy;
      simpl; try constructor.
    - inversion Hx; inversion Hy; subst. auto.
    - inversion Hx; inversion Hy; subst. auto. }
  assert (Hl : forall x, P x -> Forall S (map (f x) ys)).
  { intros x Px. apply Forall_forall. intros z Hz.
    apply in_map_iff in Hz. destruct Hz as (y & <- & Hin).
    rewrite Forall_forall in Hy. auto. }
  assert (Hr : forall y, Q y -> Forall S (map (fun x => f x y) xs)).
  { intros y Qy. apply Forall_forall. intros z Hz.
    apply in_map_iff in Hz. destruct Hz as (x & <- & Hin).
    rewrite Forall_forall in Hx. auto. }
  destruct (length xs =? length ys)%nat.
  - intros H. injection H as <-. now apply Hmap2.
  - destruct xs as [|x [|x' xs]].
    + destruct ys as [|y [|y' ys]]; intros H; try discriminate.
      injection H as <-. constructor.
    + intros H. injection H as <-. apply Hl. now inversion Hx.
    + destruct ys as [|y [|y' ys]]; intros H; try discriminate.
      injection H as <-. apply Hr. now inversion Hy.
Qed.

Lemma sum_nonneg xs : Forall (fun x => 0 <= x) xs -> 0 <= fold_right Rplus 0 xs.
Proof.
  induction 1; simpl; lra.
Qed.

Lemma mean_nonneg xs : Forall (fun x => 0 <= x) xs -> 0 <= mean xs.
Proof.
  intros H. unfold mean, Rdiv.
  destruct xs as [|x xs].
  - simpl. lra.
  - apply Rmult_le_pos; [now apply sum_nonneg|].
    apply Rlt_le, Rinv_0_lt_compat. apply lt_0_INR. simpl. lia.
Qed.

Lemma is_weights_positive N ps beta w :
  Forall (fun p => 0 < INR N * p) ps ->
  is_weights N ps beta = Ok w ->
  ps <> [] /\ Forall (fun x => 0 < x <= 1) w.
Proof.
  intros _ Hw.
  assert (Hne : ps <> []).
  { intros ->. discriminate. }
  split; [exact Hne|].
  destruct (is_weights_normalised N ps beta Hne)
    as (m & _ & Hm & Hw' & _ & Hle).
  rewrite Hw in Hw'. inversion Hw'; subst w.
  rewrite Forall_forall in *.
  intros x Hx. split; [|now apply Hle].
  apply in_map_iff in Hx. destruct Hx as (p & <- & _).
  apply Rdiv_lt_0_compat; [|exact Hm].
  unfold Rpower. apply exp_pos.
Qed.

Lemma clamp_bounds lo hi x : lo <= hi -> lo <= clamp lo hi x <= hi.
Proof.
  intros H. unfold clamp, Rmin, Rmax.
  destruct (Rle_dec x lo); destruct (Rle_dec _ hi); lra.
Qed.

Section AgentExtras.

Variable Obs : Type.
Variable forward : Params -> Obs -> list R.
Variable backward : (Params -> R) -> Params -> Params.
Variable OptState : Type.
Variable optimizer_step : OptState -> Params -> Params -> OptState * Params.
Variable Store : Type.
Variable Coins : Type.
Variable mem_size : Store -> nat.
Variable mem_update : Store -> Transition Obs -> Store.
Variable mem_sample : Store -> nat -> Coins -> result (Batch Obs).
Variable mem_update_priority : Store -> list nat -> list R -> Store.

Local Abbreviation Agent := (DQNAgent Obs OptState Store).
Local Abbreviation train_epoch1 :=
  (train_epoch forward backward optimizer_step
               mem_size mem_sample mem_update_priority).
Local Abbreviation train1 :=
  (train forward backward optimizer_step
         mem_size mem_sample mem_update_priority).

Ltac unfold_setters :=
  unfold set_loss_param, set_memory, set_n_step_buffer, set_epsilon,
    set_dqn, set_target_dqn, set_optimizer in *.

Ltac unfold_monad :=
  unfold bind, get, lift, modify, ret in *.

Lemma pass_loss_nonneg coins (a : Agent) l a' b :
  train_epoch1 coins a = (Ok l, a') ->
  mem_sample (memory a) (batch_size a) coins = Ok b ->
  Forall (fun p => 0 < INR (mem_size (memory a)) * p) (b_priorities b) ->
  0 <= l.
Proof.
  intros H Hs' Hprio.
  destruct (proj1 (train_epoch_inv _ forward backward _ optimizer_step _ _
                     mem_size mem_sample mem_update_priority _ _ _ _) H)
    as (b0 & curr_q & max_next_q & target & w & loss & weighted & opt
        & theta & target' & Hs & _ & _ & _ & Hw & Hl & Hx & -> & _).
  rewrite Hs' in Hs. inversion Hs; subst b0.
  apply mean_nonneg.
  destruct (is_weights_positive _ _ _ _ Hprio Hw) as [_ Hpos].
  assert (Hloss : Forall (fun x => 0 <= x) loss).
  { apply (broadcast2_Forall (fun _ => True) (fun _ => True)
                             (fun x => 0 <= x) (fun q t => (q - t) ^ 2)
                             curr_q target loss).
    - intros x y _ _. apply pow2_ge_0.
    - apply Forall_forall; auto.
    - apply Forall_forall; auto.
    - exact Hl. }
  apply (broadcast2_Forall (fun x => 0 <= x) (fun x => 0 < x <= 1)
                           (fun x => 0 <= x) Rmult loss w weighted);
    auto.
  intros x y Hx0 [Hy _]. apply Rmult_le_pos; lra.
Qed.

(** X1.  What [train] returns tells the three cases apart: [-inf] when
    the store holds fewer transitions than [batch_size], [None] when it is
    ready but [epochs] is 0 (the agent is untouched in both cases), and
    otherwise, if the call returns at all, a loss that is never negative,
    so the sentinel cannot be mistaken for a loss.  The priorities
    [sample] returns are taken to be positive, as the floor of the store
    makes them. *)
Theorem train_return_value epochs coins (a : Agent) v a' :
  (forall b,
      mem_sample (memory a) (batch_size a) (coins 0%nat) = Ok b ->
      Forall (fun p => 0 < INR (mem_size (memory a)) * p) (b_priorities b)) ->
  train1 epochs coins a = (Ok v, a') ->
  ((mem_size (memory a) < batch_size a)%nat /\ v = NegInf /\ a' = a) \/
  ((batch_size a <= mem_size (memory a))%nat /\ epochs = 0%nat /\
   v = PyNone /\ a' = a) \/
  ((batch_size a <= mem_size (memory a))%nat /\ (1 <= epochs)%nat /\
   exists l, v = Float l /\ 0 <= l).
Proof.
  intros Hprio H.
  destruct (Nat.ltb_spec (mem_size (memory a)) (batch_size a)) as [Hlt|Hge].
  - left. rewrite (train_not_ready _ forward backward _ optimizer_step _ _
                     mem_size mem_sample mem_update_priority) in H
      by exact Hlt.
    inversion H; subst. auto.
  - right. destruct epochs as [|epochs].
    + left. rewrite (train_zero_epochs _ forward backward _ optimizer_step
                       _ _ mem_size mem_sample mem_update_priority) in H
        by exact Hge.
      inversion H; subst. auto.
    + right. rewrite (train_ready _ forward backward _ optimizer_step _ _
                        mem_size mem_sample mem_update_priority) in H
        by exact Hge.
      destruct (train_epoch1 (coins 0%nat) a) as [[l|e] a1] eqn:E;
        inversion H; subst.
      repeat split; auto; try lia.
      exists l. split; [reflexivity|].
      destruct (proj1 (train_epoch_inv _ forward backward _ optimizer_step
                         _ _ mem_size mem_sample mem_update_priority
                         _ _ _ _) E)
        as (b & _ & _ & _ & _ & _ & _ & _ & _ & _ & Hs & _).
      exact (pass_loss_nonneg _ _ _ _ b E Hs (Hprio b Hs)).
Qed.

(** X2.  In a pass of [train] that returns, on positive priorities, every
    importance-sampling weight lies in (0, 1], and the gradients handed
    to the optimizer are those of the loss with every component brought
    into [-100, 100], tensor by tensor and of unchanged shape. *)
Theorem train_clamps_gradients coins (a : Agent) l a' b :
  train_epoch1 coins a = (Ok l, a') ->
  mem_sample (memory a) (batch_size a) coins = Ok b ->
  Forall (fun p => 0 < INR (mem_size (memory a)) * p) (b_priorities b) ->
  exists target w raw grads,
    is_weights (mem_size (memory a)) (b_priorities b) (loss_param a) = Ok w /\
    Forall (fun x => 0 < x <= 1) w /\
    raw = backward (loss_fn forward b target w) (dqn a) /\
    optimizer_step (optimizer a) (dqn a) grads = (optimizer a', dqn a') /\
    map (@length R) grads = map (@length R) raw /\
    Forall (Forall (fun g => -100 <= g <= 100)) grads /\
    (forall i j t g,
       nth_error raw i = Some t -> nth_error t j = Some g ->
       exists t',
         nth_error grads i = Some t' /\
         nth_error t' j
         = Some (if Rle_dec g (-100) then -100
                 else if Rle_dec g 100 then g else 100)).
Proof.
  intros H Hs' Hprio.
  destruct (proj1 (train_epoch_inv _ forward backward _ optimizer_step _ _
                     mem_size mem_sample mem_update_priority _ _ _ _) H)
    as (b0 & curr_q & max_next_q & target & w & loss & weighted & opt
        & theta & target' & Hs & _ & _ & _ & Hw & _ & _ & _ & Ho & _ & ->).
  rewrite Hs' in Hs. inversion Hs; subst b0.
  exists target, w. eexists. eexists.
  split; [exact Hw|].
  split; [exact (proj2 (is_weights_positive _ _ _ _ Hprio Hw))|].
  split; [reflexivity|].
  split; [exact Ho|].
  split.
  { rewrite map_map. apply map_ext. intros t. apply length_map. }
  split.
  { apply Forall_map. apply Forall_forall. intros t _.
    apply Forall_map. apply Forall_forall. intros g _.
    apply clamp_bounds. lra. }
  intros i j t g Ht Hg.
  exists (map (clamp (-100) 100) t). split.
  - exact (map_nth_error (map (clamp (-100) 100)) _ _ Ht).
  - rewrite (map_nth_error (clamp (-100) 100) _ _ Hg). f_equal.
    unfold clamp, Rmin, Rmax.
    destruct (Rle_dec g (-100));
      [destruct (Rle_dec (-100) 100) | destruct (Rle_dec g 100)];
      try reflexivity; lra.
Qed.

(** X3.  In a pass of [train] that returns, on a batch whose arrays have
    one length and whose priorities are positive, a terminal sample ([done] set) enters the loss as
    [w_i * (Q(s_i,a_i) - r_i)^2] and has [(Q(s_i,a_i) - r_i)^2] written
    back as its priority: its target is its reward alone, and nothing of
    the target network's estimate enters either value. *)
Theorem train_terminal_target coins (a : Agent) l a' b :
  train_epoch1 coins a = (Ok l, a') ->
  mem_sample (memory a) (batch_size a) coins = Ok b ->
  length (b_actions b) = length (b_rewards b) ->
  length (b_rewards b) = length (b_dones b) ->
  length (b_dones b) = length (b_next_states b) ->
  length (b_next_states b) = length (b_priorities b) ->
  Forall (fun p => 0 < INR (mem_size (memory a)) * p) (b_priorities b) ->
  exists curr_q w weighted written,
    gather (map (forward (dqn a)) (b_states b)) (b_actions b) = Ok curr_q /\
    is_weights (mem_size (memory a)) (b_priorities b) (loss_param a) = Ok w /\
    length weighted = length (b_rewards b) /\
    l = fold_right Rplus 0 weighted / INR (length weighted) /\
    memory a' = mem_update_priority (memory a) (b_indexes b) written /\
    forall i r q wi,
      nth_error (b_rewards b) i = Some r ->
      nth_error (b_dones b) i = Some true ->
      nth_error curr_q i = Some q ->
      nth_error w i = Some wi ->
      nth_error weighted i = Some ((q - r) ^ 2 * wi) /\
      nth_error written i = Some ((q - r) ^ 2).
Proof.
  intros H Hs Har Hrd Hdn Hnp _.
  destruct (pass_elementwise _ forward backward _ optimizer_step _ _
              mem_size mem_sample mem_update_priority
              _ _ _ _ _ H Hs Har Hrd Hdn Hnp)
    as (curr_q & target & w & Hg & Hw & Lq & Lt & Lw & Hel & Hloss & Hmem
        & _).
  exists curr_q, w,
    (map2 Rmult (map2 (fun q t => (q - t) ^ 2) curr_q target) w),
    (map Rabs (map2 (fun q t => (q - t) ^ 2) curr_q target)).
  split; [exact Hg|]. split; [exact Hw|].
  split.
  { rewrite length_map2; rewrite length_map2; congruence. }
  split; [exact Hloss|]. split; [exact Hmem|].
  intros i r q wi Hr Hd Hq Hwi.
  destruct (nth_error (b_next_states b) i) as [s'|] eqn:Hn.
  2:{ apply nth_error_None in Hn.
      assert (i < length (b_rewards b))%nat
        by (apply nth_error_Some; congruence).
      lia. }
  destruct (Hel i r true s' Hr Hd Hn) as (m & _ & Ht).
  replace (r + (1 - b2r true) * gamma a ^ n_step a * m) with r in Ht
    by (simpl; ring).
  pose proof (nth_error_map2 (fun q t => (q - t) ^ 2) _ _ i q r Hq Ht)
    as Hsq.
  split.
  - exact (nth_error_map2 Rmult _ _ i _ _ Hsq Hwi).
  - rewrite (map_nth_error Rabs _ _ Hsq). f_equal.
    apply Rabs_right. apply Rle_ge. apply pow2_ge_0.
Qed.

Lemma train_epoch_frame coins (a : Agent) r a' :
  train_epoch1 coins a = (r, a') ->
  epsilon a' = epsilon a /\ epsilon_decay a' = epsilon_decay a /\
  min_epsilon a' = min_epsilon a /\ n_step_buffer a' = n_step_buffer a /\
  batch_size a' = batch_size a /\ alpha a' = alpha a /\
  gamma a' = gamma a /\ tau a' = tau a /\ n_step a' = n_step a.
Proof.
  unfold train_epoch, update_target. unfold_monad.
  destruct (mem_sample _ _ _) as [b|];
    [|intros H; inversion H; subst; repeat split].
  destruct (gather _ _) as [curr_q|];
    [|intros H; inversion H; subst; repeat split].
  destruct (mapM _ _) as [max_next_q|];
    [|intros H; inversion H; subst; repeat split].
  destruct (bootstrap_target _ _ _ _ _) as [target|];
    [|intros H; inversion H; subst; repeat split].
  destruct (is_weights _ _ _) as [w|];
    [|intros H; inversion H; subst; repeat split].
  destruct (mse_loss_none _ _) as [loss|];
    [|intros H; inversion H; subst; simpl; repeat split].
  destruct (broadcast2 _ _ _) as [weighted|];
    [|intros H; inversion H; subst; simpl; repeat split].
  unfold_setters. simpl.
  destruct (optimizer_step _ _ _) as [opt theta]. simpl.
  destruct (soft_update_loop _ _ _) as [r0 target'].
  destruct r0 as [[]|e]; intros H; inversion H; subst; simpl; repeat split.
Qed.

(** X4.  A call of [train], whatever it returns or raises, leaves the
    exploration rate (epsilon, its decay and floor), the accumulator and
    the hyperparameters ([batch_size], [alpha], [gamma], [tau], [n_step])
    as they were. *)
Theorem train_keeps_exploration_and_config epochs coins (a : Agent) r a' :
  train1 epochs coins a = (r, a') ->
  epsilon a' = epsilon a /\ epsilon_decay a' = epsilon_decay a /\
  min_epsilon a' = min_epsilon a /\ n_step_buffer a' = n_step_buffer a /\
  batch_size a' = batch_size a /\ alpha a' = alpha a /\
  gamma a' = gamma a /\ tau a' = tau a /\ n_step a' = n_step a.
Proof.
  destruct (Nat.ltb_spec (mem_size (memory a)) (batch_size a)) as [Hlt|Hge].
  - rewrite (train_not_ready _ forward backward _ optimizer_step _ _
               mem_size mem_sample mem_update_priority) by exact Hlt.
    intros H; inversion H; subst; repeat split.
  - destruct epochs as [|epochs].
    + rewrite (train_zero_epochs _ forward backward _ optimizer_step _ _
                 mem_size mem_sample mem_update_priority) by exact Hge.
      intros H; inversion H; subst; repeat split.
    + rewrite (train_ready _ forward backward _ optimizer_step _ _
                 mem_size mem_sample mem_update_priority) by exact Hge.
      destruct (train_epoch1 (coins 0%nat) a) as [[l|e] a1] eqn:E;
        intros H; inversion H; subst;
        exact (train_epoch_frame _ _ _ _ E).
Qed.

(** X5.  When [sample] hands back an empty batch (as for
    [batch_size = 0]), a pass of [train] raises [ValueError] at [w.max()]
    and has changed nothing: no loss is returned. *)
Theorem train_empty_batch_raises coins (a : Agent) b :
  mem_sample (memory a) (batch_size a) coins = Ok b ->
  b_states b = [] -> b_actions b = [] -> b_rewards b = [] ->
  b_dones b = [] -> b_next_states b = [] -> b_priorities b = [] ->
  train_epoch1 coins a = (Raise ValueError, a).
Proof.
  intros Hs H1 H2 H3 H4 H5 H6.
  unfold train_epoch. unfold_monad.
  rewrite Hs, H1, H2, H3, H4, H5, H6. reflexivity.
Qed.

Lemma act_state state evaluate u sampled (a : Agent) :
  snd (act forward state evaluate u sampled a)
  = set_epsilon (Rmax (epsilon a * epsilon_decay a) (min_epsilon a)) a.
Proof.
  unfold act. unfold_monad. unfold_setters. simpl.
  destruct (Rlt_dec u _); destruct evaluate; reflexivity.
Qed.

Lemma Rmax_decay e d p m :
  0 <= d -> 0 <= p <= 1 -> 0 <= m ->
  Rmax (Rmax (e * d) m * p) m = Rmax (e * (d * p)) m.
Proof.
  intros Hd Hp Hm. unfold Rmax.
  destruct (Rle_dec (e * d) m); destruct (Rle_dec (e * (d * p)) m);
    destruct (Rle_dec _ m); try reflexivity; try nra.
Qed.

Lemma pow_unit_interval d k : 0 <= d <= 1 -> 0 <= d ^ k <= 1.
Proof.
  intros Hd. induction k as [|k IH]; simpl; nra.
Qed.

Lemma act_all_from_floor calls : forall (a : Agent),
  0 <= epsilon_decay a <= 1 ->
  0 <= min_epsilon a ->
  min_epsilon a <= epsilon a ->
  act_all forward calls a
  = set_epsilon (Rmax (epsilon a * epsilon_decay a ^ length calls)
                      (min_epsilon a)) a.
Proof.
  induction calls as [|[[[s e] u] smp] calls IH]; intros a Hd Hm He.
  - simpl. rewrite Rmult_1_r, Rmax_left by lra. now destruct a.
  - cbn [act_all length]. rewrite act_state.
    rewrite IH; unfold_setters; simpl; auto using Rmax_r.
    f_equal.
    rewrite (Rmax_decay (epsilon a) (epsilon_decay a)
                        (epsilon_decay a ^ length calls) (min_epsilon a));
      auto using pow_unit_interval; lra.
Qed.

(** X6.  Calls of [act] change nothing but epsilon, whatever they return
    or raise, and after [k >= 1] calls epsilon is
    [max(epsilon_0 * epsilon_decay^k, min_epsilon)], provided
    [0 <= epsilon_decay <= 1] and [min_epsilon >= 0]. *)
Theorem act_epsilon_closed_form calls (a : Agent) :
  0 <= epsilon_decay a <= 1 ->
  0 <= min_epsilon a ->
  calls <> [] ->
  act_all forward calls a
  = set_epsilon (Rmax (epsilon a * epsilon_decay a ^ length calls)
                      (min_epsilon a)) a.
Proof.
  intros Hd Hm Hne.
  destruct calls as [|[[[s e] u] smp] calls]; [congruence|].
  cbn [act_all length]. rewrite act_state.
  rewrite act_all_from_floor; unfold_setters; simpl; auto using Rmax_r.
  f_equal.
  rewrite (Rmax_decay (epsilon a) (epsilon_decay a)
                      (epsilon_decay a ^ length calls) (min_epsilon a));
    auto using pow_unit_interval; lra.
Qed.

(** X8.  [save_model] followed by [load_model] of the same path puts the
    saved online parameters into both networks of any agent of the same
    architecture, and changes nothing else; files at other paths are not
    affected by the save. *)
Theorem save_then_load fs path (a a2 : Agent) :
  map (@length R) (dqn a2) = map (@length R) (dqn a) ->
  map (@length R) (target_dqn a2) = map (@length R) (dqn a) ->
  load_model (save_model fs path a) path a2
  = (Ok tt, set_target_dqn (dqn a) (set_dqn (dqn a) a2)) /\
  forall p, p <> path -> save_model fs path a p = fs p.
Proof.
  intros H1 H2. split.
  - unfold load_model, torch_load, save_model.
    unfold_monad. unfold_setters. rewrite String.eqb_refl.
    rewrite (load_state_dict_ok _ _ H1). cbn [target_dqn].
    rewrite (load_state_dict_ok _ _ H2). reflexivity.
  - intros p Hp. unfold save_model.
    destruct (String.eqb_spec p path); [contradiction | reflexivity].
Qed.

(** X9.  [load_model] of a path that holds no file raises and leaves the
    agent as it was.  A state dict that does not fit the online network
    makes it raise [RuntimeError] with the target network untouched, but
    not the online network: every tensor of the state dict that fits has
    been copied into it, and only the others are as before.  A state dict
    that fits the online network but not the target network raises after
    the online network has been overwritten, the target network holding
    the tensors that fitted. *)
Theorem load_model_failures fs path (a : Agent) :
  (fs path = None -> load_model fs path a = (Raise FileNotFound, a)) /\
  (forall sd, fs path = Some sd ->
     map (@length R) (dqn a) <> map (@length R) sd ->
     fst (load_model fs path a) = Raise RuntimeError /\
     target_dqn (snd (load_model fs path a)) = target_dqn a /\
     length (dqn (snd (load_model fs path a))) = length (dqn a) /\
     forall i p,
       nth_error (dqn a) i = Some p ->
       nth_error (dqn (snd (load_model fs path a))) i
       = Some match nth_error sd i with
              | Some t => if (length p =? length t)%nat then t else p
              | None => p
              end) /\
  (forall sd, fs path = Some sd ->
     map (@length R) (dqn a) = map (@length R) sd ->
     map (@length R) (target_dqn a) <> map (@length R) sd ->
     fst (load_model fs path a) = Raise RuntimeError /\
     dqn (snd (load_model fs path a)) = sd /\
     length (target_dqn (snd (load_model fs path a)))
     = length (target_dqn a) /\
     forall i p,
       nth_error (target_dqn a) i = Some p ->
       nth_error (target_dqn (snd (load_model fs path a))) i
       = Some match nth_error sd i with
              | Some t => if (length p =? length t)%nat then t else p
              | None => p
              end).
Proof.
  unfold load_model, torch_load. unfold_monad. unfold_setters.
  split; [|split].
  - intros ->. reflexivity.
  - intros sd -> Hne.
    pose proof (load_state_dict_raises _ _ Hne) as Hr.
    pose proof (load_state_dict_length (dqn a) sd) as Hlen.
    pose proof (load_state_dict_nth (dqn a) sd) as Hnth.
    destruct (load_state_dict (dqn a) sd) as [r online].
    simpl in Hr, Hlen, Hnth. subst r. simpl. auto.
  - intros sd -> He Hne.
    rewrite (load_state_dict_ok _ _ He). cbn [target_dqn].
    pose proof (load_state_dict_raises _ _ Hne) as Hr.
    pose proof (load_state_dict_length (target_dqn a) sd) as Hlen.
    pose proof (load_state_dict_nth (target_dqn a) sd) as Hnth.
    destruct (load_state_dict (target_dqn a) sd) as [r target].
    simpl in Hr, Hlen, Hnth. subst r. simpl. auto.
Qed.

Lemma map2_ext {A B C} (f g : A -> B -> C) xs ys :
  (forall x y, f x y = g x y) -> map2 f xs ys = map2 g xs ys.
Proof.
  intros H. revert ys.
  induction xs as [|x xs IH]; intros [|y ys]; simpl; auto.
  now rewrite H, IH.
Qed.

Lemma map2_left {A B} (xs : list A) (ys : list B) :
  length xs = length ys -> map2 (fun x _ => x) xs ys = xs.
Proof.
  revert ys.
  induction xs as [|x xs IH]; intros [|y ys] H; simpl in *;
    try discriminate; auto.
  f_equal. apply IH. congruence.
Qed.

Lemma map2_right {A B} (xs : list A) (ys : list B) :
  length xs = length ys -> map2 (fun _ y => y) xs ys = ys.
Proof.
  revert ys.
  induction xs as [|x xs IH]; intros [|y ys] H; simpl in *;
    try discriminate; auto.
  f_equal. apply IH. congruence.
Qed.

Lemma map2_nested_left (ts ps : Params) :
  map (@length R) ts = map (@length R) ps ->
  map2 (map2 (fun x _ => x)) ts ps = ts.
Proof.
  revert ps.
  induction ts as [|t ts IH]; intros [|p ps] H; simpl in *;
    try discriminate; auto.
  inversion H as [[Hl Hrest]]. now rewrite map2_left, IH.
Qed.

Lemma map2_nested_right (ts ps : Params) :
  map (@length R) ts = map (@length R) ps ->
  map2 (map2 (fun _ y => y)) ts ps = ps.
Proof.
  revert ps.
  induction ts as [|t ts IH]; intros [|p ps] H; simpl in *;
    try discriminate; auto.
  inversion H as [[Hl Hrest]]. now rewrite map2_right, IH.
Qed.

Lemma map2_nested_shape (f : R -> R -> R) (ts ps : Params) :
  map (@length R) ts = map (@length R) ps ->
  map (@length R) (map2 (map2 f) ts ps) = map (@length R) ps.
Proof.
  revert ps.
  induction ts as [|t ts IH]; intros [|p ps] H; simpl in *;
    try discriminate; auto.
  inversion H as [[Hl Hrest]].
  rewrite (IH ps Hrest), length_map2 by exact Hl.
  congruence.
Qed.

Lemma map2_map2_left {A B} (g : A -> B -> A) (h : A -> B -> A) xs ys :
  map2 g (map2 h xs ys) ys = map2 (fun x y => g (h x y) y) xs ys.
Proof.
  revert ys.
  induction xs as [|x xs IH]; intros [|y ys]; simpl; auto.
  now rewrite IH.
Qed.

Lemma map2_nested_compose (g h : R -> R -> R) (ts ps : Params) :
  map2 (map2 g) (map2 (map2 h) ts ps) ps
  = map2 (map2 (fun x y => g (h x y) y)) ts ps.
Proof.
  revert ps.
  induction ts as [|t ts IH]; intros [|p ps]; simpl; auto.
  now rewrite map2_map2_left, IH.
Qed.

Lemma update_target_run (a : Agent) :
  map (@length R) (target_dqn a) = map (@length R) (dqn a) ->
  update_target a
  = (Ok tt,
     set_target_dqn
       (map2 (map2 (fun x y => x * (1 - tau a) + tau a * y))
             (target_dqn a) (dqn a)) a).
Proof.
  intros H. unfold update_target.
  now rewrite (soft_update_loop_ok _ _ _ H).
Qed.

(** X10.  On networks of one shape, [update_target] with [tau = 0]
    leaves the target network alone, with [tau = 1] makes it a copy of
    the online network, and for any [tau] keeps the two networks equal
    once they are. *)
Theorem update_target_special_cases (a : Agent) :
  map (@length R) (target_dqn a) = map (@length R) (dqn a) ->
  (tau a = 0 -> update_target a = (Ok tt, a)) /\
  (tau a = 1 -> update_target a = (Ok tt, set_target_dqn (dqn a) a)) /\
  (target_dqn a = dqn a -> update_target a = (Ok tt, a)).
Proof.
  intros H. rewrite (update_target_run a H). repeat split.
  - intros ->.
    rewrite (map2_ext _ (map2 (fun x _ => x))).
    + rewrite map2_nested_left by exact H. now destruct a.
    + intros t p. apply map2_ext. intros; ring.
  - intros ->.
    rewrite (map2_ext _ (map2 (fun _ y => y))).
    + now rewrite map2_nested_right by exact H.
    + intros t p. apply map2_ext. intros; ring.
  - intros E. rewrite E.
    assert (Hd : forall ps : Params,
               map2 (map2 (fun x y => x * (1 - tau a) + tau a * y)) ps ps
               = ps).
    { induction ps as [|p ps IH]; simpl; auto.
      rewrite IH. f_equal.
      clear. induction p as [|x p IH]; simpl; auto.
      rewrite IH. f_equal. ring. }
    rewrite Hd. rewrite <- E. now destruct a.
Qed.

(** X11.  While the online network is not trained, [k] soft updates
    shrink the distance of every target parameter to its online
    counterpart by the factor [(1 - tau)^k]: the target holds
    [online + (1 - tau)^k * (target_0 - online)]. *)
Theorem update_target_converges k (a : Agent) :
  map (@length R) (target_dqn a) = map (@length R) (dqn a) ->
  update_target_times k a
  = set_target_dqn
      (map2 (map2 (fun x y => y + (1 - tau a) ^ k * (x - y)))
            (target_dqn a) (dqn a)) a.
Proof.
  intros H. induction k as [|k IH].
  - simpl. rewrite (map2_ext _ (map2 (fun x _ => x))).
    + rewrite map2_nested_left by exact H. now destruct a.
    + intros t p. apply map2_ext. intros; ring.
  - change (update_target_times (S k) a)
      with (snd (update_target (update_target_times k a))).
    rewrite IH. rewrite update_target_run.
    + unfold_setters. simpl. rewrite map2_nested_compose.
      f_equal. apply map2_ext. intros t p. apply map2_ext.
      intros x y. simpl. ring.
    + unfold_setters. simpl. now apply map2_nested_shape.
Qed.

(** X12.  The constructor copies the parameters the other way round than
    the names of its loop variables suggest: when it succeeds on two
    networks of one shape, both the online and the target network hold
    the initial parameters of the target network, and those drawn for the
    online network are gone. *)
Theorem init_keeps_target_parameters batch_size0 n_step0 alpha0 beta
    beta_decay gamma0 tau0 epsilon_init epsilon_decay0 min_epsilon0
    (memory0 : Store) net_online net_target (opt0 : OptState) (a : Agent) :
  map (@length R) net_online = map (@length R) net_target ->
  init batch_size0 n_step0 alpha0 beta beta_decay gamma0 tau0
       epsilon_init epsilon_decay0 min_epsilon0
       memory0 net_online net_target opt0 = Ok a ->
  dqn a = net_target /\ target_dqn a = net_target.
Proof.
  intros H.
  assert (Hcopy : init_copy_loop net_online net_target = Ok net_target).
  { revert net_target H.
    induction net_online as [|t ts IH]; intros [|p ps] H; simpl in *;
      try discriminate; auto.
    inversion H as [[Hl Hrest]].
    unfold copy_. rewrite Hl, Nat.eqb_refl. simpl.
    now rewrite (IH ps Hrest). }
  unfold init. rewrite Hcopy. simpl.
  intros E; inversion E; subst; simpl. auto.
Qed.

End AgentExtras.

(** * Properties of the environment wrappers *)

Section WrapperTheory.

Import Wrappers.

Variable Obs : Type.
Variable Info : Type.
Variable EnvState : Type.
Variable env_step : EnvState -> nat -> (Obs * R * bool * Info) * EnvState.
Variable env_reset : EnvState -> Obs * EnvState.
Variable mark : Info -> Info.
Variable lives : EnvState -> Z.

Lemma TimeLimit_trace_spec actions : forall (w : TimeLimit EnvState),
  tl_elapsed_steps (snd (TimeLimit_trace env_step mark actions w))
  = (tl_elapsed_steps w + Z.of_nat (length actions))%Z /\
  tl_max_episode_steps (snd (TimeLimit_trace env_step mark actions w))
  = tl_max_episode_steps w /\
  tl_env (snd (TimeLimit_trace env_step mark actions w))
  = snd (env_trace env_step actions (tl_env w)) /\
  forall i r,
    nth_error (fst (TimeLimit_trace env_step mark actions w)) i = Some r ->
    exists r0,
      nth_error (fst (env_trace env_step actions (tl_env w))) i = Some r0 /\
      sr_obs r = sr_obs r0 /\ sr_reward r = sr_reward r0 /\
      ((tl_max_episode_steps w <= tl_elapsed_steps w + Z.of_nat i + 1)%Z ->
       sr_done r = true /\ sr_info r = mark (sr_info r0)) /\
      ((tl_elapsed_steps w + Z.of_nat i + 1 < tl_max_episode_steps w)%Z ->
       sr_done r = sr_done r0 /\ sr_info r = sr_info r0).
Proof.
  induction actions as [|ac actions IH]; intros w.
  - simpl. repeat split; try lia.
    intros [|i] r H; discriminate.
  - cbn [TimeLimit_trace env_trace].
    destruct (TimeLimit_step env_step mark w ac) as [r1 w1] eqn:E1.
    destruct (env_step (tl_env w) ac) as [r0 e1] eqn:E0.
    specialize (IH w1).
    destruct (TimeLimit_trace env_step mark actions w1) as [rs w2].
    assert (Hw1 : tl_elapsed_steps w1 = (tl_elapsed_steps w + 1)%Z /\
                  tl_max_episode_steps w1 = tl_max_episode_steps w /\
                  tl_env w1 = e1 /\
                  sr_obs r1 = sr_obs r0 /\ sr_reward r1 = sr_reward r0 /\
                  ((tl_max_episode_steps w <= tl_elapsed_steps w + 1)%Z ->
                   sr_done r1 = true /\ sr_info r1 = mark (sr_info r0)) /\
                  ((tl_elapsed_steps w + 1 < tl_max_episode_steps w)%Z ->
                   sr_done r1 = sr_done r0 /\ sr_info r1 = sr_info r0)).
    { unfold TimeLimit_step in E1. rewrite E0 in E1.
      destruct r0 as [[[o rew] d] inf].
      destruct (Z.leb_spec (tl_max_episode_steps w) (tl_elapsed_steps w + 1));
        inversion E1; subst; simpl; repeat split; auto; lia. }
    destruct Hw1 as (He & Hm & Henv & Ho & Hr & Hd1 & Hd2).
    rewrite Henv in IH.
    destruct (env_trace env_step actions e1) as [rs0 e2].
    simpl in *. destruct IH as (IHe & IHm & IHenv & IHn).
    repeat split; try lia; try congruence.
    intros [|i] r H; simpl in H.
    + inversion H; subst. exists r0.
      split; [reflexivity|]. split; [exact Ho|]. split; [exact Hr|].
      split; intros Hc; [apply Hd1 | apply Hd2]; lia.
    + destruct (IHn i r H) as (r' & Hn & Ho' & Hr' & Ha & Hb).
      exists r'.
      split; [exact Hn|]. split; [exact Ho'|]. split; [exact Hr'|].
      split; intros Hc; [apply Ha | apply Hb]; lia.
Qed.

(** X13.  After a [reset] of [TimeLimitWrapper], the [i]-th step (counted
    from 1) shows what the environment shows, except that from step
    [max_episode_steps] on every step is reported as [done], with the
    truncation recorded in [info]; before that the environment's own
    [done] and [info] are passed on. *)
Theorem TimeLimit_forces_done (w : TimeLimit EnvState) actions i r :
  nth_error
    (fst (TimeLimit_trace env_step mark actions
            (snd (TimeLimit_reset env_reset w)))) i = Some r ->
  exists r0,
    nth_error
      (fst (env_trace env_step actions (snd (env_reset (tl_env w))))) i
    = Some r0 /\
    sr_obs r = sr_obs r0 /\ sr_reward r = sr_reward r0 /\
    ((tl_max_episode_steps w <= Z.of_nat i + 1)%Z ->
     sr_done r = true /\ sr_info r = mark (sr_info r0)) /\
    ((Z.of_nat i + 1 < tl_max_episode_steps w)%Z ->
     sr_done r = sr_done r0 /\ sr_info r = sr_info r0).
Proof.
  intros H.
  destruct (TimeLimit_trace_spec actions (snd (TimeLimit_reset env_reset w)))
    as (_ & _ & _ & Hn).
  unfold TimeLimit_reset in *.
  destruct (env_reset (tl_env w)) as [ob e0]. simpl in *.
  destruct (Hn i r H) as (r0 & H0 & Ho & Hr & Ha & Hb).
  exists r0. repeat split; auto.
  - apply Ha. lia.
  - apply Ha. lia.
  - apply Hb. lia.
  - apply Hb. lia.
Qed.

(** X14.  With [PenalizeDoneWrapper] around [TimeLimitWrapper], as
    [wrap_mario_kart] stacks them, the step on which the time limit is
    reached is [done] and pays the environment's reward minus the
    penalty, whether or not the game itself has ended; a step below the
    limit is penalised exactly when the game reports [done]. *)
Theorem PenalizeDone_over_TimeLimit
    (w : PenalizeDone (TimeLimit EnvState)) ac :
  let t := pd_env w in
  let r0 := fst (env_step (tl_env t) ac) in
  let r := fst (PenalizeDone_step (TimeLimit_step env_step mark) w ac) in
  sr_obs r = sr_obs r0 /\
  ((tl_max_episode_steps t <= tl_elapsed_steps t + 1)%Z ->
   sr_done r = true /\ sr_reward r = sr_reward r0 - pd_penalty w) /\
  ((tl_elapsed_steps t + 1 < tl_max_episode_steps t)%Z ->
   sr_done r = sr_done r0 /\
   sr_reward r
   = if sr_done r0 then sr_reward r0 - pd_penalty w else sr_reward r0).
Proof.
  unfold PenalizeDone_step, TimeLimit_step. simpl.
  destruct (env_step (tl_env (pd_env w)) ac) as [[[[o rew] d] inf] e1].
  destruct (Z.leb_spec (tl_max_episode_steps (pd_env w))
                       (tl_elapsed_steps (pd_env w) + 1)).
  - simpl. repeat split; auto; lia.
  - simpl. repeat split; try lia; destruct d; reflexivity.
Qed.

(** X15.  [EpisodicLifeEnv] reports [done] when the game does, or when a
    life was lost and some are left; its [lives] field is the game's
    count after every [step] and [reset]; and a [reset] that follows a
    step on which the game itself was not over does not reset the game
    but advances it by one no-op step. *)
Theorem EpisodicLife_step_then_reset (w : EpisodicLife EnvState) action :
  let r0 := fst (env_step (el_env w) action) in
  let e1 := snd (env_step (el_env w) action) in
  let r := fst (EpisodicLife_step env_step lives w action) in
  let w1 := snd (EpisodicLife_step env_step lives w action) in
  let w2 := snd (EpisodicLife_reset env_step env_reset lives w1) in
  sr_done r
  = (sr_done r0 || ((lives e1 <? el_lives w)%Z && (0 <? lives e1)%Z))%bool /\
  el_lives w1 = lives (el_env w1) /\
  el_lives w2 = lives (el_env w2) /\
  el_env w1 = e1 /\
  (sr_done r0 = true ->
   EpisodicLife_reset env_step env_reset lives w1
   = (fst (env_reset e1),
      mkEpisodicLife (lives (snd (env_reset e1))) true (snd (env_reset e1)))) /\
  (sr_done r0 = false ->
   EpisodicLife_reset env_step env_reset lives w1
   = (sr_obs (fst (env_step e1 0)),
      mkEpisodicLife (lives (snd (env_step e1 0))) false
                     (snd (env_step e1 0)))).
Proof.
  unfold EpisodicLife_step, EpisodicLife_reset. simpl.
  destruct (env_step (el_env w) action) as [[[[o rew] d] inf] e1]. simpl.
  destruct d; simpl.
  - destruct (env_reset e1) as [ob e2]. simpl.
    repeat split; auto; try discriminate.
    destruct ((lives e1 <? el_lives w)%Z && (0 <? lives e1)%Z); reflexivity.
  - destruct (env_step e1 0) as [r2 e2]. simpl.
    repeat split; auto; try discriminate.
    destruct ((lives e1 <? el_lives w)%Z && (0 <? lives e1)%Z); reflexivity.
Qed.

(** ** The frame stack *)

Lemma last_n_short {A} k (l : list A) :
  (length l <= k)%nat -> last_n k l = l.
Proof.
  intros H. unfold last_n.
  replace (length l - k)%nat with 0%nat by lia. reflexivity.
Qed.

Lemma last_n_length {A} k (l : list A) :
  length (last_n k l) = Nat.min k (length l).
Proof.
  unfold last_n. rewrite length_skipn. lia.
Qed.

Lemma last_n_app_ge {A} k (p q : list A) :
  (k <= length q)%nat -> last_n k (p ++ q) = last_n k q.
Proof.
  intros H. unfold last_n.
  rewrite length_app, skipn_app.
  rewrite skipn_all2 by lia. simpl.
  f_equal. lia.
Qed.

Lemma last_n_app {A} k (l m : list A) :
  last_n k (last_n k l ++ m) = last_n k (l ++ m).
Proof.
  destruct (Nat.le_gt_cases (length l) k) as [Hle|Hgt].
  - now rewrite (last_n_short k l Hle).
  - unfold last_n at 2.
    rewrite <- (firstn_skipn (length l - k) l) at 3.
    rewrite <- app_assoc.
    symmetry. apply last_n_app_ge.
    rewrite length_app, length_skipn. lia.
Qed.

Lemma append_times_spec k n : forall (d : list Obs) ob,
  (length d <= k)%nat ->
  append_times k n d ob = last_n k (d ++ repeat ob n).
Proof.
  induction n as [|n IH]; intros d ob Hd.
  - simpl. rewrite app_nil_r. symmetry. now apply last_n_short.
  - cbn [append_times repeat]. unfold deque_append.
    rewrite IH by (rewrite last_n_length; lia).
    rewrite last_n_app, <- app_assoc. reflexivity.
Qed.

(** X16.  [FrameStack.reset] fills the stack with [k] copies of the
    first observation, whatever it held before, and returns them. *)
Theorem FrameStack_reset_fills (w : FrameStack Obs EnvState) :
  (length (fs_frames w) <= fs_k w)%nat ->
  FrameStack_reset env_reset w
  = (Returns (repeat (fst (env_reset (fs_env w))) (fs_k w)),
     mkFrameStack (fs_k w) (repeat (fst (env_reset (fs_env w))) (fs_k w))
                  (snd (env_reset (fs_env w)))).
Proof.
  intros H. unfold FrameStack_reset, FrameStack_get_ob.
  destruct (env_reset (fs_env w)) as [ob e0]. simpl.
  rewrite append_times_spec by exact H.
  rewrite last_n_app_ge by (rewrite repeat_length; lia).
  rewrite last_n_short by (rewrite repeat_length; lia).
  now rewrite repeat_length, Nat.eqb_refl.
Qed.

Lemma FrameStack_steps_spec actions : forall (w : FrameStack Obs EnvState),
  fs_k (FrameStack_steps env_step actions w) = fs_k w /\
  fs_env (FrameStack_steps env_step actions w)
  = snd (env_trace env_step actions (fs_env w)) /\
  last_n (fs_k w) (fs_frames (FrameStack_steps env_step actions w))
  = last_n (fs_k w)
           (fs_frames w
            ++ map sr_obs (fst (env_trace env_step actions (fs_env w)))).
Proof.
  induction actions as [|ac actions IH]; intros w.
  - simpl. now rewrite app_nil_r.
  - cbn [FrameStack_steps env_trace].
    specialize (IH (snd (FrameStack_step env_step w ac))).
    unfold FrameStack_step in *.
    destruct (env_step (fs_env w) ac) as [[[[ob rew] d] inf] e1].
    simpl in *.
    destruct (env_trace env_step actions e1) as [rs e2]. simpl in *.
    destruct IH as (IHk & IHe & IHf).
    repeat split; auto.
    rewrite IHf. unfold deque_append. rewrite last_n_app.
    now rewrite <- app_assoc.
Qed.

Lemma FrameStack_steps_full actions : forall (w : FrameStack Obs EnvState),
  length (fs_frames w) = fs_k w ->
  length (fs_frames (FrameStack_steps env_step actions w)) = fs_k w.
Proof.
  induction actions as [|ac actions IH]; intros w Hw; [exact Hw|].
  cbn [FrameStack_steps].
  assert (Hk : fs_k (snd (FrameStack_step env_step w ac)) = fs_k w /\
               length (fs_frames (snd (FrameStack_step env_step w ac)))
               = fs_k w).
  { unfold FrameStack_step.
    destruct (env_step (fs_env w) ac) as [[[[ob rew] d] inf] e1]. simpl.
    split; [reflexivity|].
    unfold deque_append. rewrite last_n_length, length_app. simpl. lia. }
  destruct Hk as [Hk Hl].
  rewrite IH; congruence.
Qed.

(** X17.  Once the stack is full (as after [reset]), every [step]
    returns, its assertion never fails, and the frames it returns are the
    last [k] of the frames held before followed by the observations seen
    since: a sliding window over the episode. *)
Theorem FrameStack_sliding_window (w : FrameStack Obs EnvState) actions ac :
  length (fs_frames w) = fs_k w ->
  let w1 := FrameStack_steps env_step actions w in
  let seen := map sr_obs (fst (env_trace env_step actions (fs_env w))) in
  let r := fst (env_step (fs_env w1) ac) in
  fs_frames w1 = last_n (fs_k w) (fs_frames w ++ seen) /\
  fs_env w1 = snd (env_trace env_step actions (fs_env w)) /\
  fst (FrameStack_step env_step w1 ac)
  = Returns (last_n (fs_k w) (fs_frames w ++ seen ++ [sr_obs r]),
             sr_reward r, sr_done r, sr_info r).
Proof.
  intros Hw w1 seen r.
  destruct (FrameStack_steps_spec actions w) as (Hk & He & Hf).
  pose proof (FrameStack_steps_full actions w Hw) as Hl.
  fold w1 in Hk, He, Hf, Hl. fold seen in Hf.
  assert (Hframes : fs_frames w1 = last_n (fs_k w) (fs_frames w ++ seen)).
  { rewrite <- Hf. symmetry. apply last_n_short. lia. }
  split; [exact Hframes|]. split; [exact He|].
  unfold FrameStack_step, FrameStack_get_ob. subst r.
  destruct (env_step (fs_env w1) ac) as [[[[ob rew] d] inf] e1]. simpl.
  unfold deque_append.
  rewrite Hk, last_n_length, length_app, Hl. simpl.
  replace (Nat.min (fs_k w) (fs_k w + 1)) with (fs_k w) by lia.
  rewrite Nat.eqb_refl.
  rewrite Hframes, last_n_app, <- app_assoc. reflexivity.
Qed.

(** X18.  A [step] on a [FrameStack] that was never [reset] fails its
    assertion when [k >= 2] (the stack then holds one frame only) and
    returns when [k] is 0 or 1. *)
Theorem FrameStack_step_before_reset (env : EnvState) k ac :
  ((2 <= k)%nat ->
   fst (FrameStack_step env_step (FrameStack_init env k) ac)
   = Raises AssertionError) /\
  ((k <= 1)%nat ->
   exists res,
     fst (FrameStack_step env_step (FrameStack_init env k) ac)
     = Returns res).
Proof.
  unfold FrameStack_step, FrameStack_init, FrameStack_get_ob. simpl.
  destruct (env_step env ac) as [[[[ob rew] d] inf] e1]. simpl.
  unfold deque_append. rewrite last_n_length. simpl.
  split; intros Hk.
  - destruct (Nat.eqb_spec (Nat.min k 1) k); [lia | reflexivity].
  - destruct (Nat.eqb_spec (Nat.min k 1) k); [|lia]. eauto.
Qed.

End WrapperTheory.

(** ** Frame skipping *)

Section MaxAndSkipTheory.

Import Wrappers.

Variable Info : Type.
Variable EnvState : Type.
Variable env_step : EnvState -> nat -> (Frame * R * bool * Info) * EnvState.

Lemma slot_after_nil target s old : slot_after target s [] old = old.
Proof.
  unfold slot_after. simpl.
  destruct (_ && _); [|reflexivity].
  now destruct (Z.to_nat _).
Qed.

Lemma slot_after_cons target s obs seen old :
  slot_after target s (obs :: seen) old
  = slot_after target (S s) seen
               (if (Z.of_nat s =? target)%Z then obs else old).
Proof.
  unfold slot_after. cbn [length].
  replace (s + S (length seen))%nat with (S s + length seen)%nat by lia.
  destruct (Z.ltb_spec target (Z.of_nat (S s + length seen)));
    destruct (Z.leb_spec (Z.of_nat s) target);
    destruct (Z.leb_spec (Z.of_nat (S s)) target);
    destruct (Z.eqb_spec (Z.of_nat s) target);
    cbn [andb]; try lia; try reflexivity.
  - replace (Z.to_nat (target - Z.of_nat s))
      with (S (Z.to_nat (target - Z.of_nat (S s)))) by lia.
    reflexivity.
  - replace (Z.to_nat (target - Z.of_nat s)) with 0%nat by lia.
    reflexivity.
Qed.

Lemma skip_loop_spec skip action m : forall s (st : SkipLoop Info EnvState),
  let rs := fst (env_trace env_step (repeat action m) (sl_env st)) in
  let taken := firstn (passes rs) rs in
  skip_loop env_step skip action (seq s m) st
  = mkSkipLoop
      (slot_after (Z.of_nat skip - 2) s (map sr_obs taken)
                  (fst (sl_buffer st)),
       slot_after (Z.of_nat skip - 1) s (map sr_obs taken)
                  (snd (sl_buffer st)))
      (fold_left Rplus (map sr_reward taken) (sl_total_reward st))
      (fold_left (fun _ r => Some (sr_done r, sr_info r)) taken (sl_last st))
      (snd (env_trace env_step (repeat action (passes rs)) (sl_env st))).
Proof.
  induction m as [|m IH]; intros s st.
  - simpl. rewrite !slot_after_nil. destruct st as [[b0 b1] tot la e].
    reflexivity.
  - cbn [seq repeat skip_loop env_trace].
    destruct (env_step (sl_env st) action) as [[[[obs rew] d] inf] e1] eqn:E.
    destruct d.
    + destruct (env_trace env_step (repeat action m) e1) as [rs' e2].
      cbn [fst passes sr_done snd firstn map fold_left repeat env_trace].
      rewrite E. cbn [fst snd].
      rewrite !slot_after_cons, !slot_after_nil. reflexivity.
    + rewrite IH. cbn [sl_env sl_buffer sl_total_reward sl_last fst snd].
      destruct (env_trace env_step (repeat action m) e1) as [rs' e2] eqn:E2.
      cbn [fst passes sr_done snd firstn map fold_left repeat env_trace].
      rewrite E. cbn [fst snd].
      destruct (env_trace env_step (repeat action (passes rs')) e1)
        as [rs'' e3].
      cbn [fst snd].
      rewrite !slot_after_cons. reflexivity.
Qed.

Lemma env_trace_length actions : forall (e : EnvState),
  length (fst (env_trace env_step actions e)) = length actions.
Proof.
  induction actions as [|ac actions IH]; intros e; [reflexivity|].
  cbn [env_trace]. destruct (env_step e ac) as [r e1].
  specialize (IH e1). destruct (env_trace env_step actions e1) as [rs e2].
  simpl in *. now rewrite IH.
Qed.

Lemma passes_spec (rs : list (Frame * R * bool * Info)) :
  rs <> [] ->
  exists last,
    nth_error rs (passes rs - 1) = Some last /\
    (1 <= passes rs <= length rs)%nat /\
    ((passes rs < length rs)%nat -> sr_done last = true) /\
    Forall (fun r => sr_done r = false) (firstn (passes rs - 1) rs) /\
    forall init,
      fold_left (fun _ r => Some (sr_done r, sr_info r))
                (firstn (passes rs) rs) init
      = Some (sr_done last, sr_info last).
Proof.
  induction rs as [|r rest IH]; [congruence|]. intros _.
  cbn [passes]. destruct (sr_done r) eqn:Hd.
  - exists r. simpl. repeat split; auto; lia.
  - destruct rest as [|r' rest'].
    + exists r. simpl. repeat split; auto; lia.
    + destruct IH as (last & Hn & Hb & Hlt & Hall & Hfold); [discriminate|].
      exists last.
      replace (S (passes (r' :: rest')) - 1)%nat
        with (S (passes (r' :: rest') - 1)) by lia.
      cbn [nth_error firstn length fold_left].
      split; [exact Hn|]. split; [cbn [length] in Hb; lia|].
      split; [intros H; apply Hlt; cbn [length]; lia|].
      split; [constructor; assumption|].
      intros init. apply Hfold.
Qed.

Lemma MaxAndSkip_step_run (w : MaxAndSkip EnvState) action :
  let rs := fst (env_trace env_step (repeat action (ms_skip w)) (ms_env w)) in
  let taken := firstn (passes rs) rs in
  (1 <= ms_skip w)%nat ->
  exists last,
    nth_error rs (passes rs - 1) = Some last /\
    (1 <= passes rs <= ms_skip w)%nat /\
    ((passes rs < ms_skip w)%nat -> sr_done last = true) /\
    Forall (fun r => sr_done r = false) (firstn (passes rs - 1) rs) /\
    MaxAndSkip_step env_step w action
    = (Returns
         (frame_max
            (slot_after (Z.of_nat (ms_skip w) - 2) 0 (map sr_obs taken)
                        (fst (ms_obs_buffer w)))
            (slot_after (Z.of_nat (ms_skip w) - 1) 0 (map sr_obs taken)
                        (snd (ms_obs_buffer w))),
          fold_left Rplus (map sr_reward taken) 0,
          sr_done last, sr_info last),
       mkMaxAndSkip
         (slot_after (Z.of_nat (ms_skip w) - 2) 0 (map sr_obs taken)
                     (fst (ms_obs_buffer w)),
          slot_after (Z.of_nat (ms_skip w) - 1) 0 (map sr_obs taken)
                     (snd (ms_obs_buffer w)))
         (ms_skip w)
         (snd (env_trace env_step (repeat action (passes rs)) (ms_env w)))).
Proof.
  intros rs taken Hskip.
  assert (Hlen : length rs = ms_skip w).
  { unfold rs. now rewrite env_trace_length, repeat_length. }
  destruct (passes_spec rs) as (last & Hn & Hb & Hlt & Hall & Hfold).
  { intros E. rewrite E in Hlen. simpl in Hlen. lia. }
  exists last.
  split; [exact Hn|].
  split; [rewrite <- Hlen; exact Hb|].
  split; [rewrite <- Hlen; exact Hlt|].
  split; [exact Hall|].
  unfold MaxAndSkip_step. rewrite skip_loop_spec.
  cbn [sl_env sl_buffer sl_total_reward sl_last fst snd].
  fold rs. fold taken. unfold taken at 3. rewrite Hfold. reflexivity.
Qed.

(** X19.  One [step] of [MaxAndSkipEnv] with [skip >= 1] steps the
    environment with the same action until [skip] steps are made or one
    of them is [done], whichever comes first; it returns the sum of the
    rewards of the steps made and the [done] and [info] of the last of
    them.  With [skip = 0] no step is made and the call raises, [info]
    being unassigned. *)
Theorem MaxAndSkip_sums_rewards (w : MaxAndSkip EnvState) action :
  let rs := fst (env_trace env_step (repeat action (ms_skip w)) (ms_env w)) in
  let n := passes rs in
  ((1 <= ms_skip w)%nat ->
   exists frame last,
     nth_error rs (n - 1) = Some last /\
     (1 <= n <= ms_skip w)%nat /\
     ((n < ms_skip w)%nat -> sr_done last = true) /\
     Forall (fun r => sr_done r = false) (firstn (n - 1) rs) /\
     fst (MaxAndSkip_step env_step w action)
     = Returns (frame, fold_left Rplus (map sr_reward (firstn n rs)) 0,
                sr_done last, sr_info last) /\
     ms_env (snd (MaxAndSkip_step env_step w action))
     = snd (env_trace env_step (repeat action n) (ms_env w))) /\
  (ms_skip w = 0%nat ->
   MaxAndSkip_step env_step w action = (Raises UnboundLocalError, w)).
Proof.
  intros rs n. split.
  - intros Hskip.
    destruct (MaxAndSkip_step_run w action Hskip)
      as (last & Hn & Hb & Hlt & Hall & Hrun).
    fold rs in Hn, Hb, Hlt, Hall, Hrun. fold n in Hn, Hb, Hlt, Hall, Hrun.
    eexists. exists last. rewrite Hrun.
    repeat split; auto; lia.
  - intros H0. unfold MaxAndSkip_step. rewrite H0. simpl.
    destruct w as [[b0 b1] sk e]. simpl in *. now subst.
Qed.

Lemma nth_map_nth_error {A B} (f : A -> B) l i x d :
  nth_error l i = Some x -> nth i (map f l) d = f x.
Proof.
  revert i. induction l as [|y l IH]; intros [|i] H; simpl in *;
    try discriminate.
  - now inversion H.
  - now apply IH.
Qed.

(** X20.  The frame a [step] of [MaxAndSkipEnv] returns, for
    [skip >= 2]: when all [skip] steps are made, the pixel-wise maximum
    of the last two observations; when the episode ends on the step
    before the last, the maximum of that observation and an observation
    kept from an earlier call; and when it ends before that, the maximum
    of two observations kept from an earlier call (or of zeros), none of
    this call, and the buffer is as it was. *)
Theorem MaxAndSkip_frame (w : MaxAndSkip EnvState) action :
  let rs := fst (env_trace env_step (repeat action (ms_skip w)) (ms_env w)) in
  let n := passes rs in
  let b := ms_obs_buffer w in
  (2 <= ms_skip w)%nat ->
  exists frame total done info,
    fst (MaxAndSkip_step env_step w action)
    = Returns (frame, total, done, info) /\
    (n = ms_skip w ->
     exists r1 r2,
       nth_error rs (ms_skip w - 2) = Some r1 /\
       nth_error rs (ms_skip w - 1) = Some r2 /\
       frame = frame_max (sr_obs r1) (sr_obs r2)) /\
    ((n + 1)%nat = ms_skip w ->
     exists r1,
       nth_error rs (ms_skip w - 2) = Some r1 /\ sr_done r1 = true /\
       frame = frame_max (sr_obs r1) (snd b)) /\
    ((n + 2 <= ms_skip w)%nat ->
     frame = frame_max (fst b) (snd b) /\
     ms_obs_buffer (snd (MaxAndSkip_step env_step w action)) = b).
Proof.
  intros rs n b Hskip.
  destruct (MaxAndSkip_step_run w action ltac:(lia))
    as (last & Hn & Hb & Hlt & Hall & Hrun).
  fold rs in Hn, Hb, Hlt, Hall, Hrun. fold n in Hn, Hb, Hlt, Hall, Hrun.
  assert (Hlen : length rs = ms_skip w).
  { unfold rs. now rewrite env_trace_length, repeat_length. }
  assert (Htaken : length (map sr_obs (firstn n rs)) = n).
  { rewrite length_map, length_firstn. lia. }
  rewrite Hrun. cbn [fst snd ms_obs_buffer].
  do 4 eexists. split; [reflexivity|].
  unfold slot_after. rewrite Htaken.
  split; [|split].
  - intros E.
    destruct (nth_error rs (ms_skip w - 2)) as [r1|] eqn:E1.
    2:{ apply nth_error_None in E1. lia. }
    destruct (nth_error rs (ms_skip w - 1)) as [r2|] eqn:E2.
    2:{ apply nth_error_None in E2. lia. }
    exists r1, r2. repeat split.
    rewrite E, firstn_all2 by lia.
    destruct (Z.leb_spec (Z.of_nat 0) (Z.of_nat (ms_skip w) - 2)); [|lia].
    destruct (Z.leb_spec (Z.of_nat 0) (Z.of_nat (ms_skip w) - 1)); [|lia].
    destruct (Z.ltb_spec (Z.of_nat (ms_skip w) - 2)
                         (Z.of_nat (0 + ms_skip w))); [|lia].
    destruct (Z.ltb_spec (Z.of_nat (ms_skip w) - 1)
                         (Z.of_nat (0 + ms_skip w))); [|lia].
    cbn [andb].
    replace (Z.to_nat (Z.of_nat (ms_skip w) - 2 - Z.of_nat 0))
      with (ms_skip w - 2)%nat by lia.
    replace (Z.to_nat (Z.of_nat (ms_skip w) - 1 - Z.of_nat 0))
      with (ms_skip w - 1)%nat by lia.
    now rewrite (nth_map_nth_error _ _ _ _ _ E1),
                (nth_map_nth_error _ _ _ _ _ E2).
  - intros E.
    assert (Hlast : nth_error rs (ms_skip w - 2) = Some last).
    { rewrite <- Hn. f_equal. lia. }
    exists last. split; [exact Hlast|]. split; [apply Hlt; lia|].
    destruct (Z.leb_spec (Z.of_nat 0) (Z.of_nat (ms_skip w) - 2)); [|lia].
    destruct (Z.leb_spec (Z.of_nat 0) (Z.of_nat (ms_skip w) - 1)); [|lia].
    destruct (Z.ltb_spec (Z.of_nat (ms_skip w) - 2) (Z.of_nat (0 + n)));
      [|lia].
    destruct (Z.ltb_spec (Z.of_nat (ms_skip w) - 1) (Z.of_nat (0 + n)));
      [lia|].
    cbn [andb].
    replace (Z.to_nat (Z.of_nat (ms_skip w) - 2 - Z.of_nat 0))
      with (ms_skip w - 2)%nat by lia.
    assert (Hin : nth_error (firstn n rs) (ms_skip w - 2) = Some last).
    { rewrite nth_error_firstn.
      destruct (Nat.ltb_spec (ms_skip w - 2) n); [exact Hlast | lia]. }
    now rewrite (nth_map_nth_error _ _ _ _ _ Hin).
  - intros E.
    destruct (Z.ltb_spec (Z.of_nat (ms_skip w) - 2) (Z.of_nat (0 + n)));
      [lia|].
    destruct (Z.ltb_spec (Z.of_nat (ms_skip w) - 1) (Z.of_nat (0 + n)));
      [lia|].
    rewrite !andb_false_r. split; [reflexivity|].
    unfold b. now destruct (ms_obs_buffer w).
Qed.

End MaxAndSkipTheory.

(** ** Images and observation spaces *)

Section ImageTheory.

Import Wrappers.

(** X21.  [ObsReshape.observation] turns a frame of shape (H, W, C) into
    one of shape (C, H, W), moving the channel axis to the front and
    keeping rows and columns in place; the observation space declared by
    [__init__] has shape (C, W, H), which is the shape of the frames
    exactly when they are square. *)
Theorem ObsReshape_moves_channels_first {V} (observation : Array3 V) :
  a_shape (ObsReshape_observation observation)
  = (dim2 observation, dim0 observation, dim1 observation) /\
  (forall c h w,
      a_at (ObsReshape_observation observation) c h w
      = a_at observation h w c) /\
  (ObsReshape_new_shape (a_shape observation)
   = a_shape (ObsReshape_observation observation)
   <-> dim0 observation = dim1 observation).
Proof.
  destruct observation as [[[h w] c] at0].
  unfold ObsReshape_observation, swapaxes_last_two, swapaxes_first_last,
    ObsReshape_new_shape, dim0, dim1, dim2.
  simpl. repeat split; auto.
  - intros H. now inversion H.
  - intros ->. reflexivity.
Qed.

(** X22.  [WarpCutFrame.observation] returns the window of the frame
    that starts at row [y] and column [x]; it has the shape [__init__]
    declares, ([_height], [_width], C), when the window lies inside the
    frame, and fewer rows than declared when the window reaches below
    the frame. *)
Theorem WarpCutFrame_crops (w : WarpCutFrame) {V} (obs : Array3 V) :
  (forall i j k,
      a_at (WarpCutFrame_observation w obs) i j k
      = a_at obs (wc_y w + i) (wc_x w + j) k) /\
  ((wc_y w + wc_height w <= dim0 obs)%nat ->
   (wc_x w + wc_width w <= dim1 obs)%nat ->
   a_shape (WarpCutFrame_observation w obs)
   = WarpCutFrame_new_shape w (a_shape obs)) /\
  ((dim0 obs < wc_y w + wc_height w)%nat ->
   (0 < wc_height w)%nat ->
   (dim0 (WarpCutFrame_observation w obs) < wc_height w)%nat).
Proof.
  destruct obs as [[[h0 w0] c] at0]. destruct w as [h wd y x].
  unfold WarpCutFrame_observation, slice_rows_cols, WarpCutFrame_new_shape,
    dim0, dim1, dim2.
  simpl. repeat split; auto.
  - intros H1 H2. repeat f_equal; lia.
  - intros H1 H2. lia.
Qed.

Lemma concat_at_channel C (frames : list (Array3 nat)) : forall n c i j d,
  Forall (fun f => snd (a_shape f) = C) frames ->
  (n < length frames)%nat ->
  (c < C)%nat ->
  concat_at frames i j (n * C + c) = a_at (nth n frames d) i j c.
Proof.
  induction frames as [|f frames IH]; intros n c i j d Hall Hn Hc.
  - simpl in Hn. lia.
  - inversion Hall as [|? ? Hf Hrest]; subst.
    cbn [concat_at]. destruct n as [|n].
    + simpl. destruct (Nat.ltb_spec c (snd (a_shape f))); [reflexivity|lia].
    + destruct (Nat.ltb_spec (S n * snd (a_shape f) + c) (snd (a_shape f)));
        [simpl in *; lia|].
      replace (S n * snd (a_shape f) + c - snd (a_shape f))%nat
        with (n * snd (a_shape f) + c)%nat by (simpl; lia).
      cbn [nth]. apply IH; auto. simpl in Hn. lia.
Qed.

Lemma sum_channels C (frames : list (Array3 nat)) :
  Forall (fun f => snd (a_shape f) = C) frames ->
  fold_right Nat.add 0%nat (map (fun g => snd (a_shape g)) frames)
  = (length frames * C)%nat.
Proof.
  induction 1 as [|f frames Hf _ IH]; simpl; [reflexivity|].
  now rewrite IH, Hf.
Qed.

Lemma concatenate_same_shape H W C f (frames : list (Array3 nat)) :
  Forall (fun g => a_shape g = (H, W, C)) (f :: frames) ->
  concatenate (f :: frames)
  = Returns (mkArray3 (H, W, (length (f :: frames) * C)%nat)
                      (concat_at (f :: frames))).
Proof.
  intros Hall.
  assert (Hc : Forall (fun g => snd (a_shape g) = C) (f :: frames)).
  { eapply Forall_impl; [|exact Hall]. intros g Hg. simpl in Hg.
    now rewrite Hg. }
  inversion Hall as [|? ? Hf Hrest]; subst.
  unfold concatenate.
  assert (Hplane : forallb (same_plane f) frames = true).
  { apply forallb_forall. intros g Hg.
    rewrite Forall_forall in Hrest. specialize (Hrest g Hg).
    unfold same_plane. rewrite Hf, Hrest. simpl.
    now rewrite !Nat.eqb_refl. }
  rewrite Hplane, (sum_channels C _ Hc), Hf. reflexivity.
Qed.

(** X23.  A [LazyFrames] over [k >= 1] frames of one shape (H, W, C)
    concatenates them along the channel axis when first forced: the
    array has shape (H, W, k * C), channel [n * C + c] of it is channel
    [c] of frame [n], [count()] is [k * C] and [len()] is [H]; the array
    is then kept, the list of frames released, and forcing again returns
    the same array without rebuilding it. *)
Theorem LazyFrames_concatenates H W C f (frames : list (Array3 nat)) :
  Forall (fun g => a_shape g = (H, W, C)) (f :: frames) ->
  exists out,
    LazyFrames_force (LazyFrames_init (f :: frames))
    = (Returns out, mkLazyFrames None (Some out)) /\
    a_shape out = (H, W, (length (f :: frames) * C)%nat) /\
    (forall n c i j d,
        (n < length (f :: frames))%nat -> (c < C)%nat ->
        a_at out i j (n * C + c) = a_at (nth n (f :: frames) d) i j c) /\
    LazyFrames_force (mkLazyFrames None (Some out))
    = (Returns out, mkLazyFrames None (Some out)) /\
    fst (LazyFrames_count (LazyFrames_init (f :: frames)))
    = Returns (length (f :: frames) * C)%nat /\
    fst (LazyFrames_len (LazyFrames_init (f :: frames))) = Returns H.
Proof.
  intros Hall.
  assert (Hc : Forall (fun g => snd (a_shape g) = C) (f :: frames)).
  { eapply Forall_impl; [|exact Hall]. intros g Hg. simpl in Hg.
    now rewrite Hg. }
  pose proof (concatenate_same_shape H W C f frames Hall) as Hcat.
  eexists.
  unfold LazyFrames_count, LazyFrames_len, LazyFrames_force,
    LazyFrames_init.
  cbn [lf_out lf_frames]. rewrite Hcat.
  split; [reflexivity|]. split; [reflexivity|].
  split; [|repeat split].
  intros n c i j d Hn Hcl. cbn [a_at].
  now apply concat_at_channel.
Qed.

(** X24.  The observation the chains hand to the network, from a stack
    of [k >= 1] grayscale frames of shape (H, W, 1) with pixels up to
    255: [ObsReshape] of [ScaledFloatFrame] of the concatenated stack has
    shape ([k], H, W), its plane [n] is frame [n] divided by 255, and all
    its values lie in [0, 1]. *)
Theorem stacked_observation H W f (frames : list (Array3 nat)) :
  Forall (fun g => a_shape g = (H, W, 1%nat)) (f :: frames) ->
  Forall (fun g => forall i j, (i < H)%nat -> (j < W)%nat ->
                               (a_at g i j 0 <= 255)%nat) (f :: frames) ->
  exists stacked,
    concatenate (f :: frames) = Returns stacked /\
    let obs := ObsReshape_observation
                 (ScaledFloatFrame_observation stacked) in
    a_shape obs = (length (f :: frames), H, W) /\
    forall n i j d,
      (n < length (f :: frames))%nat -> (i < H)%nat -> (j < W)%nat ->
      a_at obs n i j = INR (a_at (nth n (f :: frames) d) i j 0) / 255 /\
      0 <= a_at obs n i j <= 1.
Proof.
  intros Hall Hpix.
  assert (Hc : Forall (fun g => snd (a_shape g) = 1%nat) (f :: frames)).
  { eapply Forall_impl; [|exact Hall]. intros g Hg. simpl in Hg.
    now rewrite Hg. }
  eexists. split; [apply (concatenate_same_shape H W 1 f frames Hall)|].
  unfold ObsReshape_observation, ScaledFloatFrame_observation,
    swapaxes_last_two, swapaxes_first_last, dim0, dim1, dim2.
  cbn [a_shape a_at fst snd].
  split; [now rewrite Nat.mul_1_r|].
  intros n i j d Hn Hi Hj.
  pose proof (concat_at_channel 1 (f :: frames) n 0 i j d Hc Hn
                                ltac:(lia)) as E.
  rewrite Nat.mul_1_r, Nat.add_0_r in E. rewrite E.
  split; [reflexivity|].
  rewrite Forall_forall in Hpix.
  assert (Hle : (a_at (nth n (f :: frames) d) i j 0 <= 255)%nat).
  { apply Hpix; [apply nth_In; exact Hn | exact Hi | exact Hj]. }
  apply le_INR in Hle.
  pose proof (pos_INR (a_at (nth n (f :: frames) d) i j 0)) as H0.
  replace (INR 255) with 255 in Hle by (simpl; lra).
  split.
  - apply Rmult_le_pos; lra.
  - apply (Rmult_le_reg_r 255); [lra|]. field_simplify. lra.
Qed.

(** X25.  Every wrapper chain, given an environment whose observations
    are [uint8] images of three dimensions, hands its discretizer an
    environment with [float32] observations of shape (4, 84, 84), or
    (84, 84, 4) without [transpose], whatever the size of the raw
    images; on any other observation space [wrap_retro], [wrap_fzero] and
    [wrap_megaman] fail the assertion of [WarpFrame]. *)
Theorem wrap_observation_space (env : Box) (transpose : bool) :
  let final := mkBox (if transpose then [4; 84; 84] else [84; 84; 4])%nat
                     float32 in
  (box_dtype env = uint8 -> length (box_shape env) = 3%nat ->
   wrap_retro env transpose = Some (Returns final) /\
   wrap_mario_kart env transpose = Some (Returns final) /\
   wrap_fzero env transpose = Some (Returns final) /\
   wrap_megaman env transpose = Some (Returns final)) /\
  (box_dtype env <> uint8 \/ length (box_shape env) <> 3%nat ->
   wrap_retro env transpose = Some (Raises AssertionError) /\
   wrap_fzero env transpose = Some (Raises AssertionError) /\
   wrap_megaman env transpose = Some (Raises AssertionError)).
Proof.
  destruct env as [shape dt]. simpl. split.
  - intros -> Hlen.
    destruct shape as [|s0 [|s1 [|s2 [|s3 rest]]]]; try discriminate.
    unfold wrap_retro, wrap_mario_kart, wrap_fzero, wrap_megaman,
      WarpCutFrame_space, WarpFrame_space.
    simpl. destruct transpose; repeat split; reflexivity.
  - intros Hbad.
    assert (E : WarpFrame_space (mkBox shape dt) = Raises AssertionError).
    { unfold WarpFrame_space. simpl.
      destruct dt; simpl.
      - destruct (Nat.eqb_spec (length shape) 3); [|reflexivity].
        destruct Hbad; congruence.
      - reflexivity. }
    unfold wrap_retro, wrap_fzero, wrap_megaman. rewrite E.
    repeat split; reflexivity.
Qed.

End ImageTheory.

(** ** The further properties on the small instances *)

Lemma demo_train_ready :
  exists l a',
    Demo.train 1 Demo.coins0 Demo.ready = (Ok (Float l), a') /\
    Demo.train_epoch (Demo.coins0 0%nat) Demo.ready = (Ok l, a').
Proof.
  destruct (demo_pass_succeeds (4/10) (5/10)) as (l & a' & H).
  exists l, a'. split; [|exact H].
  unfold Demo.train. rewrite train_ready.
  - fold Demo.train_epoch. unfold Demo.ready. now rewrite H.
  - simpl. rewrite demo_size_store2. lia.
Qed.

Lemma demo_priorities_positive b :
  Replay.sample (memory Demo.ready) (batch_size Demo.ready)
                (Demo.coins0 0%nat) = Ok b ->
  Forall (fun p => 0 < INR (Replay.size (memory Demo.ready)) * p)
         (b_priorities b).
Proof.
  intros Hs.
  destruct demo_sample_ready as (b0 & E0 & _ & _ & _ & _ & Hpos).
  pose proof (eq_trans (eq_sym Hs) E0) as Heq. inversion Heq; subst b0.
  exact Hpos.
Qed.

Lemma train_return_value_witness :
  (forall b,
      Replay.sample (memory Demo.ready) (batch_size Demo.ready)
                    (Demo.coins0 0%nat) = Ok b ->
      Forall (fun p => 0 < INR (Replay.size (memory Demo.ready)) * p)
             (b_priorities b)) /\
  exists l a',
    Demo.train 1 Demo.coins0 Demo.ready = (Ok (Float l), a') /\ 0 <= l.
Proof.
  split; [exact demo_priorities_positive|].
  destruct demo_train_ready as (l & a' & H & _).
  exists l, a'. split; [exact H|].
  destruct (train_return_value
              _ Demo.forward Demo.backward _ Demo.optimizer_step _ _
              Replay.size Replay.sample Replay.update_priority
              1%nat Demo.coins0 Demo.ready (Float l) a'
              demo_priorities_positive H)
    as [(_ & E & _) | [(_ & _ & E & _) | (_ & _ & l' & E & Hl)]];
    try discriminate.
  inversion E; subst. exact Hl.
Defined.

Lemma train_clamps_gradients_witness :
  exists l a' b grads,
    Demo.train_epoch (Demo.coins0 0%nat) Demo.ready = (Ok l, a') /\
    Replay.sample (memory Demo.ready) (batch_size Demo.ready)
                  (Demo.coins0 0%nat) = Ok b /\
    Forall (fun p => 0 < INR (Replay.size (memory Demo.ready)) * p)
           (b_priorities b) /\
    Demo.optimizer_step (optimizer Demo.ready) (dqn Demo.ready) grads
    = (optimizer a', dqn a') /\
    Forall (Forall (fun g => -100 <= g <= 100)) grads.
Proof.
  destruct (demo_pass_succeeds (4/10) (5/10)) as (l & a' & H).
  destruct demo_sample_ready as (b & Hs & _ & _ & _ & _ & Hpos).
  destruct (train_clamps_gradients
              _ Demo.forward Demo.backward _ Demo.optimizer_step _ _
              Replay.size Replay.sample Replay.update_priority
              (Demo.coins0 0%nat) Demo.ready l a' b H Hs Hpos)
    as (target & w & raw & grads & _ & _ & _ & Ho & _ & Hg & _).
  exists l, a', b, grads. auto.
Defined.

Lemma train_terminal_target_witness :
  exists l a' b curr_q written q,
    Demo.train_epoch (Demo.coins0 0%nat) Demo.ready = (Ok l, a') /\
    Replay.sample (memory Demo.ready) (batch_size Demo.ready)
                  (Demo.coins0 0%nat) = Ok b /\
    length (b_actions b) = length (b_rewards b) /\
    length (b_rewards b) = length (b_dones b) /\
    length (b_dones b) = length (b_next_states b) /\
    length (b_next_states b) = length (b_priorities b) /\
    Forall (fun p => 0 < INR (Replay.size (memory Demo.ready)) * p)
           (b_priorities b) /\
    nth_error (b_dones b) 1 = Some true /\
    nth_error curr_q 1 = Some q /\
    nth_error written 1 = Some ((q - 2) ^ 2).
Proof.
  destruct (demo_pass_succeeds (4/10) (5/10)) as (l & a' & H).
  destruct demo_batch_ready as (b & Hs & Ea & Er & Ed & En & Lp & Hpos).
  assert (L1 : length (b_actions b) = length (b_rewards b))
    by (rewrite Ea, Er; reflexivity).
  assert (L2 : length (b_rewards b) = length (b_dones b))
    by (rewrite Er, Ed; reflexivity).
  assert (L3 : length (b_dones b) = length (b_next_states b))
    by (rewrite Ed, En; reflexivity).
  assert (L4 : length (b_next_states b) = length (b_priorities b))
    by (rewrite En, Lp; reflexivity).
  destruct (train_terminal_target
              _ Demo.forward Demo.backward _ Demo.optimizer_step _ _
              Replay.size Replay.sample Replay.update_priority
              (Demo.coins0 0%nat) Demo.ready l a' b H Hs L1 L2 L3 L4 Hpos)
    as (curr_q & w & weighted & written & Hg & Hw & _ & _ & _ & Hel).
  assert (Lq : length curr_q = 2%nat).
  { rewrite (gather_length _ _ _ Hg), Ea. reflexivity. }
  assert (Lw : length w = 2%nat).
  { rewrite (is_weights_length _ _ _ _ Hw). exact Lp. }
  destruct curr_q as [|q0 [|q [|]]]; try discriminate.
  destruct w as [|w0 [|w1 [|]]]; try discriminate.
  destruct (Hel 1%nat 2 q w1
                ltac:(rewrite Er; reflexivity)
                ltac:(rewrite Ed; reflexivity)
                eq_refl eq_refl)
    as (_ & Hwr).
  exists l, a', b, [q0; q], written, q.
  repeat split; try assumption.
  rewrite Ed. reflexivity.
Defined.

Lemma train_keeps_exploration_witness :
  epsilon (snd (Demo.train 1 Demo.coins0 Demo.ready)) = epsilon Demo.ready /\
  n_step_buffer (snd (Demo.train 1 Demo.coins0 Demo.ready))
  = n_step_buffer Demo.ready.
Proof.
  destruct (train_keeps_exploration_and_config
              _ Demo.forward Demo.backward _ Demo.optimizer_step _ _
              Replay.size Replay.sample Replay.update_priority
              1%nat Demo.coins0 Demo.ready
              (fst (Demo.train 1 Demo.coins0 Demo.ready))
              (snd (Demo.train 1 Demo.coins0 Demo.ready))
              (surjective_pairing _))
    as (He & _ & _ & Hb & _).
  split; assumption.
Defined.

Lemma train_empty_batch_witness :
  exists b,
    Replay.sample Demo.store2 0 (Demo.coins0 0%nat) = Ok b /\
    b_priorities b = [] /\
    Demo.train_epoch (Demo.coins0 0%nat)
                     (Demo.agent0 0 Demo.store2 (4/10) (5/10))
    = (Raise ValueError, Demo.agent0 0 Demo.store2 (4/10) (5/10)).
Proof.
  eexists. split; [reflexivity|]. split; [reflexivity|].
  apply (train_empty_batch_raises
           _ Demo.forward Demo.backward _ Demo.optimizer_step _ _
           Replay.size Replay.sample Replay.update_priority
           (Demo.coins0 0%nat) (Demo.agent0 0 Demo.store2 (4/10) (5/10))
           _ eq_refl);
    reflexivity.
Defined.

Lemma act_epsilon_closed_form_witness :
  0 <= epsilon_decay Demo.ready <= 1 /\
  0 <= min_epsilon Demo.ready /\
  act_all Demo.forward
          [([1; 0], false, 1/4, 1%nat); ([0; 1], true, 3/4, 0%nat)]
          Demo.ready
  = set_epsilon
      (Rmax (epsilon Demo.ready * epsilon_decay Demo.ready ^ 2)
            (min_epsilon Demo.ready))
      Demo.ready.
Proof.
  assert (Hd : 0 <= epsilon_decay Demo.ready <= 1) by (simpl; lra).
  assert (Hm : 0 <= min_epsilon Demo.ready) by (simpl; lra).
  split; [exact Hd|]. split; [exact Hm|].
  apply (act_epsilon_closed_form
           _ Demo.forward _ _
           [([1; 0], false, 1/4, 1%nat); ([0; 1], true, 3/4, 0%nat)]
           Demo.ready Hd Hm).
  discriminate.
Defined.

Lemma save_then_load_witness :
  load_model (save_model Demo.disk Demo.checkpoint Demo.ready)
             Demo.checkpoint Demo.ready
  = (Ok tt,
     set_target_dqn (dqn Demo.ready) (set_dqn (dqn Demo.ready) Demo.ready)).
Proof.
  exact (proj1 (save_then_load _ _ _ Demo.disk Demo.checkpoint
                               Demo.ready Demo.ready eq_refl eq_refl)).
Defined.

Lemma load_model_failures_witness :
  (Demo.disk "elsewhere"%string = None /\
   load_model Demo.disk "elsewhere"%string Demo.ready
   = (Raise FileNotFound, Demo.ready)) /\
  (map (@length R) (dqn Demo.ready) <> map (@length R) [[9; 9]; [1; 2; 3]] /\
   fst (load_model (fun _ => Some [[9; 9]; [1; 2; 3]]) Demo.checkpoint
                   Demo.ready)
   = Raise RuntimeError /\
   nth_error
     (dqn (snd (load_model (fun _ => Some [[9; 9]; [1; 2; 3]])
                           Demo.checkpoint Demo.ready))) 0
   = Some [9; 9] /\
   nth_error
     (dqn (snd (load_model (fun _ => Some [[9; 9]; [1; 2; 3]])
                           Demo.checkpoint Demo.ready))) 1
   = Some [0; 1]) /\
  (Demo.disk Demo.checkpoint = Some Demo.theta1 /\
   map (@length R) (dqn (set_target_dqn [[1; 2; 3]; [5; 5]] Demo.ready))
   = map (@length R) Demo.theta1 /\
   map (@length R) (target_dqn (set_target_dqn [[1; 2; 3]; [5; 5]] Demo.ready))
   <> map (@length R) Demo.theta1 /\
   fst (load_model Demo.disk Demo.checkpoint
                   (set_target_dqn [[1; 2; 3]; [5; 5]] Demo.ready))
   = Raise RuntimeError /\
   dqn (snd (load_model Demo.disk Demo.checkpoint
                        (set_target_dqn [[1; 2; 3]; [5; 5]] Demo.ready)))
   = Demo.theta1 /\
   nth_error
     (target_dqn
        (snd (load_model Demo.disk Demo.checkpoint
                         (set_target_dqn [[1; 2; 3]; [5; 5]] Demo.ready)))) 0
   = Some [1; 2; 3] /\
   nth_error
     (target_dqn
        (snd (load_model Demo.disk Demo.checkpoint
                         (set_target_dqn [[1; 2; 3]; [5; 5]] Demo.ready)))) 1
   = Some [1; 1]).
Proof.
  assert (H : Demo.disk "elsewhere"%string = None) by reflexivity.
  assert (Hne : map (@length R) (dqn Demo.ready)
                <> map (@length R) [[9; 9]; [1; 2; 3]])
    by (simpl; discriminate).
  assert (Hd : Demo.disk Demo.checkpoint = Some Demo.theta1) by reflexivity.
  assert (He : map (@length R)
                   (dqn (set_target_dqn [[1; 2; 3]; [5; 5]] Demo.ready))
               = map (@length R) Demo.theta1) by reflexivity.
  assert (Hnt : map (@length R)
                    (target_dqn
                       (set_target_dqn [[1; 2; 3]; [5; 5]] Demo.ready))
                <> map (@length R) Demo.theta1)
    by (simpl; discriminate).
  split; [|split].
  - split; [exact H|].
    exact (proj1 (load_model_failures _ _ _ Demo.disk "elsewhere"%string
                                      Demo.ready) H).
  - split; [exact Hne|].
    destruct (proj1 (proj2 (load_model_failures
                              _ _ _ (fun _ => Some [[9; 9]; [1; 2; 3]])
                              Demo.checkpoint Demo.ready))
                    [[9; 9]; [1; 2; 3]] eq_refl Hne)
      as (Hr & _ & _ & Hnth).
    split; [exact Hr|]. split.
    + exact (Hnth 0%nat [1; 0] eq_refl).
    + exact (Hnth 1%nat [0; 1] eq_refl).
  - split; [exact Hd|]. split; [exact He|]. split; [exact Hnt|].
    destruct (proj2 (proj2 (load_model_failures
                              _ _ _ Demo.disk Demo.checkpoint
                              (set_target_dqn [[1; 2; 3]; [5; 5]]
                                              Demo.ready)))
                    Demo.theta1 Hd He Hnt)
      as (Hr & Hdqn & _ & Hnth).
    split; [exact Hr|]. split; [exact Hdqn|]. split.
    + exact (Hnth 0%nat [1; 2; 3] eq_refl).
    + exact (Hnth 1%nat [5; 5] eq_refl).
Defined.

Lemma update_target_special_cases_witness :
  map (@length R) (target_dqn (set_dqn Demo.theta1 Demo.ready))
  = map (@length R) (dqn (set_dqn Demo.theta1 Demo.ready)) /\
  update_target (set_dqn Demo.theta1 Demo.ready)
  = (Ok tt, set_dqn Demo.theta1 Demo.ready).
Proof.
  assert (H : map (@length R) (target_dqn (set_dqn Demo.theta1 Demo.ready))
              = map (@length R) (dqn (set_dqn Demo.theta1 Demo.ready)))
    by reflexivity.
  split; [exact H|].
  exact (proj2 (proj2 (update_target_special_cases
                         _ _ _ (set_dqn Demo.theta1 Demo.ready) H))
               eq_refl).
Defined.

Lemma update_target_converges_witness :
  map (@length R) (target_dqn Demo.ready) = map (@length R) (dqn Demo.ready) /\
  update_target_times 3 Demo.ready
  = set_target_dqn
      (map2 (map2 (fun x y => y + (1 - tau Demo.ready) ^ 3 * (x - y)))
            (target_dqn Demo.ready) (dqn Demo.ready)) Demo.ready.
Proof.
  assert (H : map (@length R) (target_dqn Demo.ready)
              = map (@length R) (dqn Demo.ready)) by reflexivity.
  split; [exact H|].
  exact (update_target_converges _ _ _ 3%nat Demo.ready H).
Defined.

Lemma init_keeps_target_parameters_witness :
  exists a,
    Demo.construct (5/10) = Ok a /\
    dqn a = Demo.theta1 /\ target_dqn a = Demo.theta1.
Proof.
  eexists. split; [reflexivity|].
  eapply (init_keeps_target_parameters
            Demo.Obs Demo.OptState Demo.Store
            32%nat 3%nat (6/10) (4/10) (2/100000) (99/100) (1/100)
            (5/10) (9995/10000) (1/100)
            (Replay.create 1000 (6/10) (1/10000))
            Demo.theta0 Demo.theta1 (7/10000)).
  - reflexivity.
  - reflexivity.
Defined.

Lemma TimeLimit_forces_done_witness :
  exists r,
    nth_error
      (fst (Wrappers.TimeLimit_trace DemoEnv.env_step DemoEnv.env_mark
              [0; 0; 0]%nat
              (snd (Wrappers.TimeLimit_reset DemoEnv.env_reset
                                             DemoEnv.limited))))
      1 = Some r /\
    Wrappers.sr_done r = true /\
    Wrappers.sr_info r = DemoEnv.env_mark 1.
Proof.
  eexists. split; [reflexivity|].
  destruct (TimeLimit_forces_done
              _ _ _ DemoEnv.env_step DemoEnv.env_reset DemoEnv.env_mark
              DemoEnv.limited [0; 0; 0]%nat 1%nat _ eq_refl)
    as (r0 & H0 & _ & _ & Hdone & _).
  inversion H0; subst r0.
  apply Hdone. simpl. lia.
Defined.

Lemma PenalizeDone_over_TimeLimit_witness :
  let w := Wrappers.mkPenalizeDone 1
             (Wrappers.mkTimeLimit 2%Z 1%Z 1%nat) in
  (Wrappers.tl_max_episode_steps (Wrappers.pd_env w)
   <= Wrappers.tl_elapsed_steps (Wrappers.pd_env w) + 1)%Z /\
  Wrappers.sr_reward
    (fst (Wrappers.PenalizeDone_step
            (Wrappers.TimeLimit_step DemoEnv.env_step DemoEnv.env_mark)
            w 0%nat))
  = 1 - 1.
Proof.
  intros w.
  assert (H : (Wrappers.tl_max_episode_steps (Wrappers.pd_env w)
               <= Wrappers.tl_elapsed_steps (Wrappers.pd_env w) + 1)%Z)
    by (simpl; lia).
  split; [exact H|].
  exact (proj2 (proj1 (proj2
           (PenalizeDone_over_TimeLimit
              _ _ _ DemoEnv.env_step DemoEnv.env_mark w 0%nat)) H)).
Defined.

Lemma EpisodicLife_witness :
  let w := Wrappers.mkEpisodicLife 3%Z false 0%nat in
  Wrappers.sr_done (fst (DemoEnv.env_step 0 0)) = false /\
  Wrappers.sr_done
    (fst (Wrappers.EpisodicLife_step DemoEnv.env_step DemoEnv.env_lives
                                     w 0%nat)) = true /\
  fst (Wrappers.EpisodicLife_reset
         DemoEnv.env_step DemoEnv.env_reset DemoEnv.env_lives
         (snd (Wrappers.EpisodicLife_step DemoEnv.env_step DemoEnv.env_lives
                                          w 0%nat)))
  = [1; 0]%nat.
Proof.
  intros w.
  destruct (EpisodicLife_step_then_reset
              _ _ _ DemoEnv.env_step DemoEnv.env_reset DemoEnv.env_lives
              w 0%nat)
    as (Hdone & _ & _ & _ & _ & Hreset).
  split; [reflexivity|]. split.
  - rewrite Hdone. reflexivity.
  - rewrite (Hreset eq_refl). reflexivity.
Defined.

Lemma FrameStack_reset_fills_witness :
  (length (Wrappers.fs_frames
             (Wrappers.FrameStack_init (Obs := Wrappers.Frame) 0%nat 4))
   <= 4)%nat /\
  fst (Wrappers.FrameStack_reset DemoEnv.env_reset
         (Wrappers.FrameStack_init 0%nat 4))
  = Wrappers.Returns (repeat [0; 0]%nat 4).
Proof.
  assert (H : (length (Wrappers.fs_frames
                         (Wrappers.FrameStack_init (Obs := Wrappers.Frame)
                                                   0%nat 4))
               <= Wrappers.fs_k
                    (Wrappers.FrameStack_init (Obs := Wrappers.Frame)
                                              0%nat 4))%nat)
    by (simpl; lia).
  split; [exact H|].
  rewrite (FrameStack_reset_fills _ _ DemoEnv.env_reset _ H).
  reflexivity.
Defined.

Lemma FrameStack_sliding_window_witness :
  let w := snd (Wrappers.FrameStack_reset DemoEnv.env_reset
                  (Wrappers.FrameStack_init 0%nat 2)) in
  length (Wrappers.fs_frames w) = Wrappers.fs_k w /\
  fst (Wrappers.FrameStack_step DemoEnv.env_step
         (Wrappers.FrameStack_steps DemoEnv.env_step [7; 8]%nat w) 9%nat)
  = Wrappers.Returns ([[1; 8]; [2; 9]]%nat, 1, true, 2%nat).
Proof.
  intros w.
  assert (H : length (Wrappers.fs_frames w) = Wrappers.fs_k w)
    by reflexivity.
  split; [exact H|].
  rewrite (proj2 (proj2 (FrameStack_sliding_window
                           _ _ _ DemoEnv.env_step w [7; 8]%nat 9%nat H))).
  reflexivity.
Defined.

Lemma FrameStack_step_before_reset_witness :
  (2 <= 4)%nat /\
  fst (Wrappers.FrameStack_step DemoEnv.env_step
         (Wrappers.FrameStack_init 0%nat 4) 0%nat)
  = Wrappers.Raises Wrappers.AssertionError.
Proof.
  split; [lia|].
  exact (proj1 (FrameStack_step_before_reset
                  _ _ _ DemoEnv.env_step 0%nat 4%nat 0%nat) ltac:(lia)).
Defined.

Lemma MaxAndSkip_sums_rewards_witness :
  let w := Wrappers.MaxAndSkip_init 0%nat 2 4 in
  (1 <= Wrappers.ms_skip w)%nat /\
  exists frame (last : Wrappers.Frame * R * bool * nat),
    fst (Wrappers.MaxAndSkip_step DemoEnv.env_step w 5%nat)
    = Wrappers.Returns (frame, 0 + 1 + 1 + 1, Wrappers.sr_done last,
                        Wrappers.sr_info last) /\
    Wrappers.ms_env (snd (Wrappers.MaxAndSkip_step DemoEnv.env_step w 5%nat))
    = 3%nat.
Proof.
  intros w.
  assert (H : (1 <= Wrappers.ms_skip w)%nat) by (simpl; lia).
  split; [exact H|].
  destruct (proj1 (MaxAndSkip_sums_rewards _ _ DemoEnv.env_step w 5%nat) H)
    as (frame & last & _ & _ & _ & _ & Hret & Henv).
  exists frame, last. split; [exact Hret | exact Henv].
Defined.

Lemma MaxAndSkip_frame_witness :
  let w := Wrappers.MaxAndSkip_init 0%nat 2 2 in
  (2 <= Wrappers.ms_skip w)%nat /\
  exists total done info,
    fst (Wrappers.MaxAndSkip_step DemoEnv.env_step w 5%nat)
    = Wrappers.Returns (Wrappers.frame_max [0; 5]%nat [1; 5]%nat,
                        total, done, info).
Proof.
  intros w.
  assert (H : (2 <= Wrappers.ms_skip w)%nat) by (simpl; lia).
  split; [exact H|].
  destruct (MaxAndSkip_frame _ _ DemoEnv.env_step w 5%nat H)
    as (frame & total & done & info & Hret & Hfull & _).
  destruct (Hfull eq_refl) as (r1 & r2 & H1 & H2 & Hframe).
  inversion H1; subst r1. inversion H2; subst r2.
  exists total, done, info. rewrite Hret, Hframe. reflexivity.
Defined.

Lemma WarpCutFrame_crops_witness :
  (Wrappers.wc_y DemoEnv.upper_half + Wrappers.wc_height DemoEnv.upper_half
   <= Wrappers.dim0 DemoEnv.image)%nat /\
  (Wrappers.wc_x DemoEnv.upper_half + Wrappers.wc_width DemoEnv.upper_half
   <= Wrappers.dim1 DemoEnv.image)%nat /\
  Wrappers.a_shape
    (Wrappers.WarpCutFrame_observation DemoEnv.upper_half DemoEnv.image)
  = (1, 3, 2)%nat.
Proof.
  assert (H1 : (Wrappers.wc_y DemoEnv.upper_half
                + Wrappers.wc_height DemoEnv.upper_half
                <= Wrappers.dim0 DemoEnv.image)%nat) by (cbv; lia).
  assert (H2 : (Wrappers.wc_x DemoEnv.upper_half
                + Wrappers.wc_width DemoEnv.upper_half
                <= Wrappers.dim1 DemoEnv.image)%nat) by (cbv; lia).
  split; [exact H1|]. split; [exact H2|].
  exact (proj1 (proj2 (WarpCutFrame_crops DemoEnv.upper_half DemoEnv.image))
               H1 H2).
Defined.

Lemma LazyFrames_concatenates_witness :
  Forall (fun g => Wrappers.a_shape g = (2, 3, 2)%nat)
         [DemoEnv.image; DemoEnv.image] /\
  fst (Wrappers.LazyFrames_count
         (Wrappers.LazyFrames_init [DemoEnv.image; DemoEnv.image]))
  = Wrappers.Returns (2 * 2)%nat.
Proof.
  assert (H : Forall (fun g => Wrappers.a_shape g = (2, 3, 2)%nat)
                     [DemoEnv.image; DemoEnv.image])
    by (repeat constructor).
  split; [exact H|].
  destruct (LazyFrames_concatenates 2 3 2 DemoEnv.image [DemoEnv.image] H)
    as (out & _ & _ & _ & _ & Hcount & _).
  exact Hcount.
Defined.

Lemma stacked_observation_witness :
  Forall (fun g => Wrappers.a_shape g = (2, 3, 1)%nat)
         [DemoEnv.gray 0; DemoEnv.gray 100] /\
  exists stacked,
    Wrappers.concatenate [DemoEnv.gray 0; DemoEnv.gray 100]
    = Wrappers.Returns stacked /\
    Wrappers.a_shape
      (Wrappers.ObsReshape_observation
         (Wrappers.ScaledFloatFrame_observation stacked))
    = (2, 2, 3)%nat.
Proof.
  assert (H : Forall (fun g => Wrappers.a_shape g = (2, 3, 1)%nat)
                     [DemoEnv.gray 0; DemoEnv.gray 100])
    by (repeat constructor).
  assert (Hp : Forall (fun g => forall i j, (i < 2)%nat -> (j < 3)%nat ->
                                  (Wrappers.a_at g i j 0 <= 255)%nat)
                      [DemoEnv.gray 0; DemoEnv.gray 100]).
  { constructor; [intros i j Hi Hj; simpl; lia|].
    constructor; [intros i j Hi Hj; simpl; lia|]. constructor. }
  split; [exact H|].
  destruct (stacked_observation 2 3 (DemoEnv.gray 0) [DemoEnv.gray 100] H Hp)
    as (stacked & Hcat & Hshape & _).
  exists stacked. split; [exact Hcat | exact Hshape].
Defined.

Lemma wrap_observation_space_witness :
  Wrappers.box_dtype DemoEnv.screen = Wrappers.uint8 /\
  length (Wrappers.box_shape DemoEnv.screen) = 3%nat /\
  Wrappers.wrap_mario_kart DemoEnv.screen true
  = Some (Wrappers.Returns
            (Wrappers.mkBox [4; 84; 84]%nat Wrappers.float32)).
Proof.
  split; [reflexivity|]. split; [reflexivity|].
  exact (proj1 (proj2 (proj1 (wrap_observation_space DemoEnv.screen true)
                             eq_refl eq_refl))).
Defined.
